(** * A shallow embedding of the tilemap renderer of vscode-rm

    The development follows the TypeScript sources: the batch buffer
    ([Tilemap] of the tilemap package, module [Batch] here), the composite
    layer ([CompositeTilemap], module [Composite]), the animation clock
    ([CounterInterpolator], module [Clock]) and the RPG-Maker map renderer
    (the abstract [Tilemap] with its static tile-id predicates and
    [ShaderTilemap], module [Rmmv]).

    Numbers.  Tile ids, set numbers, map sizes, animation counters and array
    indices are JavaScript numbers holding integers: they are [Z].  Pixel
    coordinates, sizes and elapsed time are JavaScript numbers that may be
    fractional ([tileWidth / 2], [h1 / 2], seconds): they are rationals [Q],
    computed exactly.  [NaN] and the infinities have no counterpart; the
    places where the source could produce one (a division by a zero tile
    size or by a zero divisor) are pointed out where they occur. *)

From Stdlib Require Import ZArith QArith Qround Qminmax List Bool Lia Lqa.
From stdpp Require Import base option list.
Import ListNotations.

Local Open Scope Z_scope.

(** ** JavaScript operators on numbers *)

Module Js.

  (** [a % n] on integers is the truncated remainder (sign of the dividend).
      For [n = 0] JavaScript yields [NaN]; [Z.rem a 0 = a]. *)
Definition rem (a n : Z) : Z := Z.rem a n.

  (** [Math.floor(a / n)] on integers. *)
Definition floorDiv (a n : Z) : Z := a / n.

  (** [x | 0]: conversion to a signed 32-bit integer. *)
Definition toInt32 (z : Z) : Z := (z + 2 ^ 31) mod 2 ^ 32 - 2 ^ 31.

  (** Conversion of a stored value to an unsigned 32-bit integer
      (a store into a [Uint32Array]). *)
Definition toUint32 (z : Z) : Z := z mod 2 ^ 32.

  (** Truthiness of a number: everything but zero (and [NaN]). *)
Definition truthy (q : Q) : bool := negb (Qeq_bool q 0).

  (** [a || b] where [a] is an optional number and [b] a number. *)
Definition orElse (a : option Q) (b : Q) : Q :=
    match a with
    | Some q => if truthy q then q else b
    | None => b
    end.

  (** [a ?? b], and the default of a destructuring pattern. *)
Definition nullish {A} (a : option A) (b : A) : A :=
    match a with Some q => q | None => b end.

  (** [arr[i]] for a number [i] holding an integer: [undefined] outside
      [0 .. length-1]. *)
Definition index {A} (arr : list A) (i : Z) : option A :=
    if 0 <=? i then arr !! Z.to_nat i else None.

  (** [!==] on two numbers that may be [undefined]. *)
Definition strictNeq (a b : option Z) : bool :=
    match a, b with
    | Some p, Some q => negb (p =? q)
    | None, None => false
    | _, _ => true
    end.

End Js.

(** ** The batch buffer: class [Tilemap] of the tilemap package *)

Module Batch.

  (** A texture, as far as the renderer looks at it.  Two textures belong to
      the same buffer when their [source] is the same object. *)
Record Texture := mkTexture {
    source : nat;
    source_width : Q;
    source_height : Q;
    frame_x : Q;
    frame_y : Q;
    orig_width : Q;
    orig_height : Q;
    width : Q;
    height : Q
  }.

Record PointStruct := mkPoint {
    pt_u : Q;
    pt_v : Q;
    pt_x : Q;
    pt_y : Q;
    pt_tileWidth : Q;
    pt_tileHeight : Q;
    pt_rotate : Q;
    pt_animX : Z;
    pt_animY : Z;
    pt_animCountX : Z;
    pt_animCountY : Z;
    pt_animDivisor : Q;
    pt_alpha : Q
  }.

  (** The [options] object of [tile]; an absent property is [None]. *)
Record TileOptions := mkOptions {
    o_u : option Q;
    o_v : option Q;
    o_tileWidth : option Q;
    o_tileHeight : option Q;
    o_animX : option Z;
    o_animY : option Z;
    o_rotate : option Q;
    o_animCountX : option Z;
    o_animCountY : option Z;
    o_animDivisor : option Q;
    o_alpha : option Q
  }.

Definition noOptions : TileOptions :=
    mkOptions None None None None None None None None None None None.

  (** Pixi's [Bounds]: empty, or the hull [(minX, minY, maxX, maxY)] of the
      frames added since the last [clear]. *)
Definition Bounds : Type := option (Q * Q * Q * Q).

Definition addFrame (b : Bounds) (x0 y0 x1 y1 : Q) : Bounds :=
    let lx := Qmin x0 x1 in let hx := Qmax x0 x1 in
    let ly := Qmin y0 y1 in let hy := Qmax y0 y1 in
    match b with
    | None => Some (lx, ly, hx, hy)
    | Some (minX, minY, maxX, maxY) =>
        Some (Qmin minX lx, Qmin minY ly, Qmax maxX hx, Qmax maxY hy)
    end.

Record Tilemap := mkTilemap {
    baseTexture : Texture;
    pointsBuf : list PointStruct;
    tilemapBounds : Bounds;
    hasAnimatedTile : bool;
    _didTilemapUpdate : bool;
    tileAnim : Q * Q
  }.

  (** [new Tilemap(baseTexture)] *)
Definition new (t : Texture) : Tilemap :=
    mkTilemap t [] None false true (0%Q, 0%Q).

  (** [onTilemapUpdate]: the flag the render pipe looks at. *)
Definition onTilemapUpdate (m : Tilemap) : Tilemap :=
    mkTilemap (baseTexture m) (pointsBuf m) (tilemapBounds m)
              (hasAnimatedTile m) true (tileAnim m).

  (** [clear()] *)
Definition clear (m : Tilemap) : Tilemap :=
    onTilemapUpdate
      (mkTilemap (baseTexture m) [] None false (_didTilemapUpdate m) (tileAnim m)).

  (** [setTileAnim(value)] *)
Definition setTileAnim (m : Tilemap) (value : Q * Q) : Tilemap :=
    if negb (Qeq_bool (fst (tileAnim m)) (fst value))
       || negb (Qeq_bool (snd (tileAnim m)) (snd value))
    then
      let m' := mkTilemap (baseTexture m) (pointsBuf m) (tilemapBounds m)
                          (hasAnimatedTile m) (_didTilemapUpdate m) value in
      if hasAnimatedTile m' then onTilemapUpdate m' else m'
    else m.

  (** The command [tile] pushes, from the texture in use and the options. *)
Definition pointOf (texture : Texture) (x y : Q) (o : TileOptions) : PointStruct :=
    let u := Js.orElse (o_u o) (frame_x texture) in
    let v := Js.orElse (o_v o) (frame_y texture) in
    let tileWidth := Js.orElse (o_tileWidth o) (orig_width texture) in
    let tileHeight := Js.orElse (o_tileHeight o) (orig_height texture) in
    let animX := Js.nullish (o_animX o) 0 in
    let animY := Js.nullish (o_animY o) 0 in
    mkPoint u v x y tileWidth tileHeight
            (Js.nullish (o_rotate o) 0%Q)
            (Js.toInt32 animX) (Js.toInt32 animY)
            (Js.nullish (o_animCountX o) 1024)
            (Js.nullish (o_animCountY o) 1024)
            (Js.nullish (o_animDivisor o) 1%Q)
            (Js.nullish (o_alpha o) 1%Q).

  (** [tile(texture, x, y, options)] *)
Definition tile (m : Tilemap) (texture : option Texture) (x y : Q)
             (o : TileOptions) : Tilemap :=
    let texture := Js.nullish texture (baseTexture m) in
    let p := pointOf texture x y o in
    let animX := Js.nullish (o_animX o) 0 in
    let animY := Js.nullish (o_animY o) 0 in
    onTilemapUpdate
      (mkTilemap (baseTexture m)
                 (pointsBuf m ++ [p])
                 (addFrame (tilemapBounds m) x y
                           (x + pt_tileWidth p)%Q (y + pt_tileHeight p)%Q)
                 (hasAnimatedTile m || (0 <? animX) || (0 <? animY))
                 (_didTilemapUpdate m)
                 (tileAnim m)).

End Batch.

(** ** Typed arrays and the mesh built from a batch buffer *)

Module Mesh.

(** A typed array is a view on an [ArrayBuffer]: the buffer's identity, the
    first element of the view and its length.  [subarray] makes a new view
    on the same buffer; [new Float32Array(n)] makes a new buffer. *)
Record View := mkView {
  buffer : nat;
  first : nat;
  len : nat
}.

(** The buffers allocated so far: those of [Float32Array]s and those of
    [Uint32Array]s, each addressed by its position in the list. *)
Record Memory := mkMemory {
  f32 : list (list Q);
  u32 : list (list Z)
}.

Record MeshGeometry := mkGeometry {
  positions : View;
  uvs : View;
  indices : View
}.

(** [new Float32Array(n)] / [new Uint32Array(n)]: a fresh zero-filled buffer. *)
Definition alloc {A} (zero : A) (n : nat) (bufs : list (list A)) : View * list (list A) :=
  (mkView (length bufs) 0 n, bufs ++ [repeat zero n]).

(** [a.subarray(0, k)]: the end is clamped to the length of [a]. *)
Definition subarray0 (a : View) (k : nat) : View :=
  mkView (buffer a) (first a) (Nat.min k (len a)).

(** [a[i] = x]: a store outside the view is ignored. *)
Definition store {A} (a : View) (i : nat) (x : A) (bufs : list (list A)) : list (list A) :=
  if (i <? len a)%nat then alter (fun b => <[(first a + i)%nat := x]> b) (buffer a) bufs
  else bufs.

(** [a[i]] *)
Definition load {A} (a : View) (i : nat) (bufs : list (list A)) : option A :=
  if (i <? len a)%nat then bufs !! buffer a ≫= (fun b => b !! (first a + i)%nat)
  else None.

(** All the elements of a view, in order. *)
Definition contents {A} (a : View) (bufs : list (list A)) : list A :=
  match bufs !! buffer a with
  | Some b => take (len a) (drop (first a) b)
  | None => []
  end.

(** A view lies within its buffer. *)
Definition inRange {A} (bufs : list (list A)) (a : View) : Prop :=
  exists b, bufs !! buffer a = Some b /\ (first a + len a <= length b)%nat.

(** Buffers are never freed or resized: what is allocated stays, with its
    length. *)
Definition sameShape {A} (bufs bufs' : list (list A)) : Prop :=
  forall i b, bufs !! i = Some b -> exists b', bufs' !! i = Some b' /\ length b' = length b.

Definition memGrows (mem mem' : Memory) : Prop :=
  sameShape (f32 mem) (f32 mem') /\ sameShape (u32 mem) (u32 mem').

(** The three arrays of a geometry hold 8, 8 and 6 elements per quad for one
    and the same number of quads, and lie within their buffers. *)
Definition geomOk (mem : Memory) (g : MeshGeometry) : Prop :=
  exists k : nat,
    len (positions g) = (k * 8)%nat /\ len (uvs g) = (k * 8)%nat
    /\ len (indices g) = (k * 6)%nat
    /\ inRange (f32 mem) (positions g) /\ inRange (f32 mem) (uvs g)
    /\ inRange (u32 mem) (indices g).

Section Build.

(** The rounding of a number stored into a [Float32Array]. *)
Variable fround : Q -> Q.

(** The eight vertex coordinates of command [i]. *)
Definition writePositions (a : View) (i : nat) (p : Batch.PointStruct)
           (bufs : list (list Q)) : list (list Q) :=
  let base := (i * 4 * 2)%nat in
  let x := Batch.pt_x p in let y := Batch.pt_y p in
  let w := Batch.pt_tileWidth p in let h := Batch.pt_tileHeight p in
  store a (base + 7) (fround (y + h)%Q)
   (store a (base + 6) (fround x)
    (store a (base + 5) (fround (y + h)%Q)
     (store a (base + 4) (fround (x + w)%Q)
      (store a (base + 3) (fround y)
       (store a (base + 2) (fround (x + w)%Q)
        (store a (base + 1) (fround y)
         (store a (base + 0) (fround x) bufs))))))).

(** [animOffset]: the animation cell chosen by the buffer's [tileAnim].
    A zero [animDivisor] makes the source divide by zero. *)
Definition animOffset (tileAnim : Q * Q) (p : Batch.PointStruct) : Q * Q :=
  let currentFrame0 := Qfloor (fst tileAnim / Batch.pt_animDivisor p + (1 # 2))%Q in
  let currentFrame1 := Qfloor (snd tileAnim / Batch.pt_animDivisor p + (1 # 2))%Q in
  (if Batch.pt_animX p =? 0 then 0%Q
   else inject_Z (Batch.pt_animX p * Js.rem currentFrame0 (Batch.pt_animCountX p)),
   if Batch.pt_animY p =? 0 then 0%Q
   else inject_Z (Batch.pt_animY p * Js.rem currentFrame1 (Batch.pt_animCountY p))).

(** The eight texture coordinates of command [i]. *)
Definition writeUvs (m : Batch.Tilemap) (a : View) (i : nat) (p : Batch.PointStruct)
           (bufs : list (list Q)) : list (list Q) :=
  let base := (i * 4 * 2)%nat in
  let off := animOffset (Batch.tileAnim m) p in
  let u := (Batch.pt_u p + fst off)%Q in
  let v := (Batch.pt_v p + snd off)%Q in
  let tw := Batch.pt_tileWidth p in let th := Batch.pt_tileHeight p in
  let sw := Batch.source_width (Batch.baseTexture m) in
  let sh := Batch.source_height (Batch.baseTexture m) in
  store a (base + 7) (fround ((v + th) / sh)%Q)
   (store a (base + 6) (fround (u / sw)%Q)
    (store a (base + 5) (fround ((v + th) / sh)%Q)
     (store a (base + 4) (fround ((u + tw) / sw)%Q)
      (store a (base + 3) (fround (v / sh)%Q)
       (store a (base + 2) (fround ((u + tw) / sw)%Q)
        (store a (base + 1) (fround (v / sh)%Q)
         (store a (base + 0) (fround (u / sw)%Q) bufs))))))).

(** The six indices of command [i]: the triangles 0-1-2 and 0-2-3. *)
Definition writeIndices (a : View) (i : nat) (bufs : list (list Z)) : list (list Z) :=
  let pntBase := Z.of_nat (i * 4) in
  let indBase := (i * 6)%nat in
  store a (indBase + 5) (Js.toUint32 (pntBase + 3))
   (store a (indBase + 4) (Js.toUint32 (pntBase + 2))
    (store a (indBase + 3) (Js.toUint32 pntBase)
     (store a (indBase + 2) (Js.toUint32 (pntBase + 2))
      (store a (indBase + 1) (Js.toUint32 (pntBase + 1))
       (store a (indBase + 0) (Js.toUint32 pntBase) bufs))))).

(** One turn of the loop over [pointsBuf.entries()]. *)
Definition writePoint (m : Batch.Tilemap) (g : MeshGeometry) (i : nat)
           (p : Batch.PointStruct) (mem : Memory) : Memory :=
  mkMemory (writeUvs m (uvs g) i p (writePositions (positions g) i p (f32 mem)))
           (writeIndices (indices g) i (u32 mem)).

Fixpoint buildLoop (m : Batch.Tilemap) (g : MeshGeometry) (i : nat)
         (pts : list Batch.PointStruct) (mem : Memory) : Memory :=
  match pts with
  | [] => mem
  | p :: rest => buildLoop m g (S i) rest (writePoint m g i p mem)
  end.

(** [new MeshGeometry({positions, uvs, indices})] on three fresh arrays. *)
Definition freshGeometry (n : nat) (mem : Memory) : MeshGeometry * Memory :=
  let '(pos, f1) := alloc 0%Q (n * 8) (f32 mem) in
  let '(uv, f2) := alloc 0%Q (n * 8) f1 in
  let '(ind, u1) := alloc 0 (n * 6) (u32 mem) in
  (mkGeometry pos uv ind, mkMemory f2 u1).

(** The allocation branch at the head of [_computeGeometriesBatched]. *)
Definition chooseGeometry (n : nat) (geometry : option MeshGeometry) (mem : Memory)
  : MeshGeometry * Memory :=
  match geometry with
  | None => freshGeometry n mem
  | Some g =>
      if (len (positions g) <=? n * 8)%nat then freshGeometry n mem
      else if (n * 8 <=? len (positions g))%nat then
        (mkGeometry (subarray0 (positions g) (n * 8))
                    (subarray0 (uvs g) (n * 8))
                    (subarray0 (indices g) (n * 6)), mem)
      else (g, mem)
  end.

(** [_computeGeometriesBatched(geometry?)] *)
Definition _computeGeometriesBatched (m : Batch.Tilemap)
           (geometry : option MeshGeometry) (mem : Memory) : MeshGeometry * Memory :=
  let '(g, mem1) := chooseGeometry (length (Batch.pointsBuf m)) geometry mem in
  (g, buildLoop m g 0 (Batch.pointsBuf m) mem1).

(** The geometries the render pipe holds for a buffer: the first one is built
    without a previous geometry, every later one from the one before; in
    between, other arrays may be allocated and written. *)
Inductive PipeGeometry : Memory -> MeshGeometry -> Prop :=
| pipe_init m mem :
    PipeGeometry (snd (_computeGeometriesBatched m None mem))
                 (fst (_computeGeometriesBatched m None mem))
| pipe_update m mem g :
    PipeGeometry mem g ->
    PipeGeometry (snd (_computeGeometriesBatched m (Some g) mem))
                 (fst (_computeGeometriesBatched m (Some g) mem))
| pipe_other mem mem' g :
    PipeGeometry mem g -> memGrows mem mem' -> PipeGeometry mem' g.

End Build.

End Mesh.

(** ** The composite layer: class [CompositeTilemap] *)

Module Composite.

(** What [tile] accepts as its first argument.  A string is resolved to a
    texture by Pixi's [Texture.from] before anything else happens, so it is
    a [RefTexture] here. *)
Inductive TileRef :=
| RefTexture (t : Batch.Texture)
| RefNumber (n : Z).

Record CompositeTilemap := mkComposite {
  children : list Batch.Tilemap;
  shadowId : Z;
  tileAnim : Q * Q;
  position : Q * Q
}.

Definition texturesPerTilemap : Z := 1.

(** The static 1x1 half-transparent black texture.  Its source is a buffer
    of its own; the identity [0] is reserved for it. *)
Definition shadowTexture : Batch.Texture :=
  Batch.mkTexture 0 1 1 0 0 1 1 1 1.

Definition withChildren (c : CompositeTilemap) (l : list Batch.Tilemap) : CompositeTilemap :=
  mkComposite l (shadowId c) (tileAnim c) (position c).

(** [addChild(tilemap)] *)
Definition addChild (c : CompositeTilemap) (m : Batch.Tilemap) : CompositeTilemap :=
  withChildren c (children c ++ [m]).

(** The first loop of [tileset]: does every existing buffer carry the source
    given for its index? *)
Fixpoint sameSources (cs : list Batch.Tilemap) (ts : list Batch.Texture) : bool :=
  match cs, ts with
  | c :: cs', t :: ts' =>
      (Batch.source (Batch.baseTexture c) =? Batch.source t)%nat && sameSources cs' ts'
  | _, _ => true
  end.

(** [tileset(tileTextures)]; [None] is the thrown
    [Error('Dynamically assign texture to a Tilemap is not implemented.')].
    The callers in this repository pass arrays without holes (the class
    constructor passes none, the map renderer the defined bitmaps), so the
    entries are textures. *)
Definition tileset (c : CompositeTilemap) (tileTextures : list Batch.Texture)
  : option CompositeTilemap :=
  let len1 := length (children c) in
  if sameSources (children c) tileTextures then
    Some (withChildren c (children c ++ map Batch.new (drop len1 tileTextures)))
  else None.

(** [new CompositeTilemap(tileset?)] *)
Definition new : CompositeTilemap :=
  mkComposite [] (-1) (0%Q, 0%Q) (0%Q, 0%Q).

(** [clear()] *)
Definition clear (c : CompositeTilemap) : CompositeTilemap :=
  withChildren c (map Batch.clear (children c)).

(** [setTileAnim(value)] *)
Definition setTileAnim (c : CompositeTilemap) (value : Q * Q) : CompositeTilemap :=
  if negb (Qeq_bool (fst (tileAnim c)) (fst value))
     || negb (Qeq_bool (snd (tileAnim c)) (snd value))
  then mkComposite (map (fun m => Batch.setTileAnim m value) (children c))
                   (shadowId c) value (position c)
  else c.

(** The probe of [tile] for the buffer that holds a texture's source. *)
Fixpoint findSource (s : nat) (i : nat) (cs : list Batch.Tilemap) : option nat :=
  match cs with
  | [] => None
  | c :: cs' =>
      if (Batch.source (Batch.baseTexture c) =? s)%nat then Some i
      else findSource s (S i) cs'
  end.

(** [tile(tileTexture, x, y, options)].  [None] stands for the [TypeError]
    of calling [tile] on an [undefined] buffer, which can only happen when
    [shadowId] points outside [children]. *)
Definition tile (c : CompositeTilemap) (tileTexture : TileRef) (x y : Q)
           (options : Batch.TileOptions) : option CompositeTilemap :=
  match tileTexture with
  | RefNumber n =>
      if n =? -1 then
        if shadowId c =? -1 then
          let tilemap := Batch.new shadowTexture in
          let c1 := addChild c tilemap in
          let sid := Z.of_nat (length (children c1)) - 1 in
          Some (mkComposite
                  (<[Z.to_nat sid := Batch.tile tilemap None x y options]> (children c1))
                  sid (tileAnim c) (position c))
        else
          tilemap ← Js.index (children c) (shadowId c);
          Some (withChildren c
                  (<[Z.to_nat (shadowId c) := Batch.tile tilemap None x y options]>
                     (children c)))
      else
        let childIndex := n in
        match Js.index (children c) childIndex with
        | Some tilemap =>
            Some (withChildren c
                    (<[Z.to_nat childIndex := Batch.tile tilemap None x y options]>
                       (children c)))
        | None =>
            match Js.index (children c) 0 with
            | Some tilemap =>
                Some (withChildren c
                        (<[0%nat := Batch.tile tilemap None x y options]> (children c)))
            | None => Some c
            end
        end
  | RefTexture t =>
      match findSource (Batch.source t) 0 (children c) with
      | Some i =>
          tilemap ← children c !! i;
          Some (withChildren c
                  (<[i := Batch.tile tilemap (Some t) x y options]> (children c)))
      | None =>
          Some (withChildren c
                  (children c ++ [Batch.tile (Batch.new t) (Some t) x y options]))
      end
  end.

End Composite.

(** ** The animation clock: class [CounterInterpolator] *)

Module Clock.

Definition DefaultFps : Q := 60.

Record CounterInterpolator := mkCounter {
  _current : Z;
  _cumulated : Q;
  bound : Z;
  start : Z;
  inteval : Q
}.

(** [new CounterInterpolator(bound, start, inteval)] *)
Definition new (bound start : Z) (inteval : Q) : CounterInterpolator :=
  mkCounter start 0 bound start inteval.

Definition value (c : CounterInterpolator) : Z := _current c.

(** [updateDelta(delta)]: the counter after the call (the call returns its
    [value]). *)
Definition updateDelta (c : CounterInterpolator) (delta : Q) : CounterInterpolator :=
  let cumulated := (_cumulated c + delta)%Q in
  if Qle_bool (inteval c) cumulated then
    let cnt := Qfloor (cumulated / inteval c) in
    mkCounter (Js.rem (_current c + cnt) (bound c))
              (cumulated - inject_Z cnt * inteval c)%Q
              (bound c) (start c) (inteval c)
  else mkCounter (_current c) cumulated (bound c) (start c) (inteval c).

(** The clock of a map renderer:
    [new CounterInterpolator(12, 0, 30 / DefaultFps)]. *)
Definition animationCount0 : CounterInterpolator :=
  new 12 0 (30 / DefaultFps).



End Clock.

(** ** The map renderer: the abstract [Tilemap] and [ShaderTilemap] *)

Module Rmmv.

(** [numberMod]: a modulo that is never negative for a positive divisor. *)
Definition numberMod (v n : Z) : Z := Js.rem (Js.rem v n + n) n.

(** *** Tile type checkers (static members of [Tilemap]) *)

Definition TILE_ID_B : Z := 0.
Definition TILE_ID_C : Z := 256.
Definition TILE_ID_D : Z := 512.
Definition TILE_ID_E : Z := 768.
Definition TILE_ID_A5 : Z := 1536.
Definition TILE_ID_A1 : Z := 2048.
Definition TILE_ID_A2 : Z := 2816.
Definition TILE_ID_A3 : Z := 4352.
Definition TILE_ID_A4 : Z := 5888.
Definition TILE_ID_MAX : Z := 8192.

Definition isVisibleTile (tileId : Z) : bool :=
  (0 <? tileId) && (tileId <? TILE_ID_MAX).

Definition isAutotile (tileId : Z) : bool := TILE_ID_A1 <=? tileId.

Definition getAutotileKind (tileId : Z) : Z := Js.floorDiv (tileId - TILE_ID_A1) 48.

Definition getAutotileShape (tileId : Z) : Z := Js.rem (tileId - TILE_ID_A1) 48.

Definition makeAutotileId (kind shape : Z) : Z := TILE_ID_A1 + kind * 48 + shape.

Definition isTileA1 (tileId : Z) : bool :=
  (TILE_ID_A1 <=? tileId) && (tileId <? TILE_ID_A2).

Definition isTileA2 (tileId : Z) : bool :=
  (TILE_ID_A2 <=? tileId) && (tileId <? TILE_ID_A3).

Definition isTileA3 (tileId : Z) : bool :=
  (TILE_ID_A3 <=? tileId) && (tileId <? TILE_ID_A4).

Definition isTileA4 (tileId : Z) : bool :=
  (TILE_ID_A4 <=? tileId) && (tileId <? TILE_ID_MAX).

Definition isTileA5 (tileId : Z) : bool :=
  (TILE_ID_A5 <=? tileId) && (tileId <? TILE_ID_A1).

Definition isShadowingTile (tileId : Z) : bool :=
  isTileA3 tileId || isTileA4 tileId.

Definition isSameKindTile (tileID1 tileID2 : Z) : bool :=
  if isAutotile tileID1 && isAutotile tileID2
  then getAutotileKind tileID1 =? getAutotileKind tileID2
  else tileID1 =? tileID2.

Definition isWaterTile (tileId : Z) : bool :=
  if isTileA1 tileId
  then negb ((TILE_ID_A1 + 96 <=? tileId) && (tileId <? TILE_ID_A1 + 192))
  else false.

Definition isWaterfallTile (tileId : Z) : bool :=
  if (TILE_ID_A1 + 192 <=? tileId) && (tileId <? TILE_ID_A2)
  then Js.rem (getAutotileKind tileId) 2 =? 1
  else false.

Definition isGroundTile (tileId : Z) : bool :=
  isTileA1 tileId || isTileA2 tileId || isTileA5 tileId.

Definition isRoofTile (tileId : Z) : bool :=
  isTileA3 tileId && (Js.rem (getAutotileKind tileId) 16 <? 8).

Definition isWallTopTile (tileId : Z) : bool :=
  isTileA4 tileId && (Js.rem (getAutotileKind tileId) 16 <? 8).

Definition isWallSideTile (tileId : Z) : bool :=
  (isTileA3 tileId || isTileA4 tileId) && (8 <=? Js.rem (getAutotileKind tileId) 16).

Definition isWallTile (tileId : Z) : bool :=
  isWallTopTile tileId || isWallSideTile tileId.

Definition isFloorTypeAutotile (tileId : Z) : bool :=
  (isTileA1 tileId && negb (isWaterfallTile tileId)) || isTileA2 tileId
  || isWallTopTile tileId.

Definition isWallTypeAutotile (tileId : Z) : bool :=
  isRoofTile tileId || isWallSideTile tileId.

Definition isWaterfallTypeAutotile (tileId : Z) : bool := isWaterfallTile tileId.

(** *** Autotile shape number to coordinates of tileset images *)

Definition FLOOR_AUTOTILE_TABLE : list (list (Z * Z)) :=
  [ [(2, 4); (1, 4); (2, 3); (1, 3)]; [(2, 0); (1, 4); (2, 3); (1, 3)];
    [(2, 4); (3, 0); (2, 3); (1, 3)]; [(2, 0); (3, 0); (2, 3); (1, 3)];
    [(2, 4); (1, 4); (2, 3); (3, 1)]; [(2, 0); (1, 4); (2, 3); (3, 1)];
    [(2, 4); (3, 0); (2, 3); (3, 1)]; [(2, 0); (3, 0); (2, 3); (3, 1)];
    [(2, 4); (1, 4); (2, 1); (1, 3)]; [(2, 0); (1, 4); (2, 1); (1, 3)];
    [(2, 4); (3, 0); (2, 1); (1, 3)]; [(2, 0); (3, 0); (2, 1); (1, 3)];
    [(2, 4); (1, 4); (2, 1); (3, 1)]; [(2, 0); (1, 4); (2, 1); (3, 1)];
    [(2, 4); (3, 0); (2, 1); (3, 1)]; [(2, 0); (3, 0); (2, 1); (3, 1)];
    [(0, 4); (1, 4); (0, 3); (1, 3)]; [(0, 4); (3, 0); (0, 3); (1, 3)];
    [(0, 4); (1, 4); (0, 3); (3, 1)]; [(0, 4); (3, 0); (0, 3); (3, 1)];
    [(2, 2); (1, 2); (2, 3); (1, 3)]; [(2, 2); (1, 2); (2, 3); (3, 1)];
    [(2, 2); (1, 2); (2, 1); (1, 3)]; [(2, 2); (1, 2); (2, 1); (3, 1)];
    [(2, 4); (3, 4); (2, 3); (3, 3)]; [(2, 4); (3, 4); (2, 1); (3, 3)];
    [(2, 0); (3, 4); (2, 3); (3, 3)]; [(2, 0); (3, 4); (2, 1); (3, 3)];
    [(2, 4); (1, 4); (2, 5); (1, 5)]; [(2, 0); (1, 4); (2, 5); (1, 5)];
    [(2, 4); (3, 0); (2, 5); (1, 5)]; [(2, 0); (3, 0); (2, 5); (1, 5)];
    [(0, 4); (3, 4); (0, 3); (3, 3)]; [(2, 2); (1, 2); (2, 5); (1, 5)];
    [(0, 2); (1, 2); (0, 3); (1, 3)]; [(0, 2); (1, 2); (0, 3); (3, 1)];
    [(2, 2); (3, 2); (2, 3); (3, 3)]; [(2, 2); (3, 2); (2, 1); (3, 3)];
    [(2, 4); (3, 4); (2, 5); (3, 5)]; [(2, 0); (3, 4); (2, 5); (3, 5)];
    [(0, 4); (1, 4); (0, 5); (1, 5)]; [(0, 4); (3, 0); (0, 5); (1, 5)];
    [(0, 2); (3, 2); (0, 3); (3, 3)]; [(0, 2); (1, 2); (0, 5); (1, 5)];
    [(0, 4); (3, 4); (0, 5); (3, 5)]; [(2, 2); (3, 2); (2, 5); (3, 5)];
    [(0, 2); (3, 2); (0, 5); (3, 5)]; [(0, 0); (1, 0); (0, 1); (1, 1)] ].

Definition WALL_AUTOTILE_TABLE : list (list (Z * Z)) :=
  [ [(2, 2); (1, 2); (2, 1); (1, 1)]; [(0, 2); (1, 2); (0, 1); (1, 1)];
    [(2, 0); (1, 0); (2, 1); (1, 1)]; [(0, 0); (1, 0); (0, 1); (1, 1)];
    [(2, 2); (3, 2); (2, 1); (3, 1)]; [(0, 2); (3, 2); (0, 1); (3, 1)];
    [(2, 0); (3, 0); (2, 1); (3, 1)]; [(0, 0); (3, 0); (0, 1); (3, 1)];
    [(2, 2); (1, 2); (2, 3); (1, 3)]; [(0, 2); (1, 2); (0, 3); (1, 3)];
    [(2, 0); (1, 0); (2, 3); (1, 3)]; [(0, 0); (1, 0); (0, 3); (1, 3)];
    [(2, 2); (3, 2); (2, 3); (3, 3)]; [(0, 2); (3, 2); (0, 3); (3, 3)];
    [(2, 0); (3, 0); (2, 3); (3, 3)]; [(0, 0); (3, 0); (0, 3); (3, 3)] ].

Definition WATERFALL_AUTOTILE_TABLE : list (list (Z * Z)) :=
  [ [(2, 0); (1, 0); (2, 1); (1, 1)]; [(0, 0); (1, 0); (0, 1); (1, 1)];
    [(2, 0); (3, 0); (2, 1); (3, 1)]; [(0, 0); (3, 0); (0, 1); (3, 1)] ].

(** *** The renderer's state *)

(** The nine composite layers are objects shared between [lowerLayer],
    [upperLayer], [shadowLayer] and the display list [children]: they live
    in [layers] and are referred to by their position there. *)
Record ShaderTilemap := mkShader {
  _margin : Q;
  _tileWidth : Q;
  _tileHeight : Q;
  _mapWidth : Z;
  _mapHeight : Z;
  _mapData : option (list Z);
  bitmaps : list (option Batch.Texture);
  _scrollOrigin : Q * Q;
  flags : list Z;
  animationCount : Clock.CounterInterpolator;
  horizontalWrap : bool;
  verticalWrap : bool;
  animationFrame : Z;
  _width : Q;
  _height : Q;
  roundPixels : bool;
  _lastBitmapLength : Z;
  _lastStartX : option Z;
  _lastStartY : option Z;
  lowerLayer : list nat;
  upperLayer : list nat;
  shadowLayer : nat;
  paintAll : bool;
  origin : Q * Q;
  children : list nat;
  layers : list Composite.CompositeTilemap
}.

Definition withLayers (st : ShaderTilemap) (h : list Composite.CompositeTilemap) : ShaderTilemap :=
  mkShader (_margin st) (_tileWidth st) (_tileHeight st) (_mapWidth st) (_mapHeight st)
           (_mapData st) (bitmaps st) (_scrollOrigin st) (flags st) (animationCount st)
           (horizontalWrap st) (verticalWrap st) (animationFrame st) (_width st) (_height st)
           (roundPixels st) (_lastBitmapLength st) (_lastStartX st) (_lastStartY st)
           (lowerLayer st) (upperLayer st) (shadowLayer st) (paintAll st) (origin st)
           (children st) h.

Definition withLastStart (st : ShaderTilemap) (sx sy : option Z) : ShaderTilemap :=
  mkShader (_margin st) (_tileWidth st) (_tileHeight st) (_mapWidth st) (_mapHeight st)
           (_mapData st) (bitmaps st) (_scrollOrigin st) (flags st) (animationCount st)
           (horizontalWrap st) (verticalWrap st) (animationFrame st) (_width st) (_height st)
           (roundPixels st) (_lastBitmapLength st) sx sy
           (lowerLayer st) (upperLayer st) (shadowLayer st) (paintAll st) (origin st)
           (children st) (layers st).

Definition withLastBitmapLength (st : ShaderTilemap) (n : Z) : ShaderTilemap :=
  mkShader (_margin st) (_tileWidth st) (_tileHeight st) (_mapWidth st) (_mapHeight st)
           (_mapData st) (bitmaps st) (_scrollOrigin st) (flags st) (animationCount st)
           (horizontalWrap st) (verticalWrap st) (animationFrame st) (_width st) (_height st)
           (roundPixels st) n (_lastStartX st) (_lastStartY st)
           (lowerLayer st) (upperLayer st) (shadowLayer st) (paintAll st) (origin st)
           (children st) (layers st).

Definition withAnimation (st : ShaderTilemap) (c : Clock.CounterInterpolator) (frame : Z)
  : ShaderTilemap :=
  mkShader (_margin st) (_tileWidth st) (_tileHeight st) (_mapWidth st) (_mapHeight st)
           (_mapData st) (bitmaps st) (_scrollOrigin st) (flags st) c
           (horizontalWrap st) (verticalWrap st) frame (_width st) (_height st)
           (roundPixels st) (_lastBitmapLength st) (_lastStartX st) (_lastStartY st)
           (lowerLayer st) (upperLayer st) (shadowLayer st) (paintAll st) (origin st)
           (children st) (layers st).



(** [setData(width, height, data)] *)
Definition setData (st : ShaderTilemap) (width height : Z) (data : list Z) : ShaderTilemap :=
  mkShader (_margin st) (_tileWidth st) (_tileHeight st) width height
           (Some data) (bitmaps st) (_scrollOrigin st) (flags st) (animationCount st)
           (horizontalWrap st) (verticalWrap st) (animationFrame st) (_width st) (_height st)
           (roundPixels st) (_lastBitmapLength st) (_lastStartX st) (_lastStartY st)
           (lowerLayer st) (upperLayer st) (shadowLayer st) (paintAll st) (origin st)
           (children st) (layers st).

(** The loader's assignments [result.bitmaps], [result.flags]. *)
Definition withTileset (st : ShaderTilemap) (bm : list (option Batch.Texture)) (fl : list Z)
  : ShaderTilemap :=
  mkShader (_margin st) (_tileWidth st) (_tileHeight st) (_mapWidth st) (_mapHeight st)
           (_mapData st) bm (_scrollOrigin st) fl (animationCount st)
           (horizontalWrap st) (verticalWrap st) (animationFrame st) (_width st) (_height st)
           (roundPixels st) (_lastBitmapLength st) (_lastStartX st) (_lastStartY st)
           (lowerLayer st) (upperLayer st) (shadowLayer st) (paintAll st) (origin st)
           (children st) (layers st).

(** *** Reading the map *)

Definition _readMapData (st : ShaderTilemap) (x y z : Z) : Z :=
  match _mapData st with
  | Some data =>
      let width := _mapWidth st in
      let height := _mapHeight st in
      let x := if horizontalWrap st then numberMod x width else x in
      let y := if verticalWrap st then numberMod y height else y in
      if (0 <=? x) && (x <? width) && (0 <=? y) && (y <? height)
      then Js.nullish (Js.index data ((z * height + y) * width + x)) 0
      else 0
  | None => 0
  end.

(** [this.flags[tileId]], [undefined] counting as [0] under [&]. *)
Definition flagOf (st : ShaderTilemap) (tileId : Z) : Z :=
  Js.nullish (Js.index (flags st) tileId) 0.

Definition _isHigherTile (st : ShaderTilemap) (tileId : Z) : bool :=
  negb (Z.land (flagOf st tileId) 16 =? 0).

Definition _isTableTile (st : ShaderTilemap) (tileId : Z) : bool :=
  isTileA2 tileId && negb (Z.land (flagOf st tileId) 128 =? 0).

Definition _isOverpassPosition (st : ShaderTilemap) (_mx _my : Z) : bool := false.

(** *** Drawing one tile *)

(** One call [layer.tile(setNumber, x, y, options)]. *)
Record TileCall := mkCall {
  setNumber : Z;
  at_x : Q;
  at_y : Q;
  options : Batch.TileOptions
}.

(** The object literal [{u, v, tileWidth, tileHeight, animX, animY}]
    (the last two absent in some calls). *)
Definition frameOptions (u v w h : Q) (animX animY : option Z) : Batch.TileOptions :=
  Batch.mkOptions (Some u) (Some v) (Some w) (Some h) animX animY
                  None None None None None.

(** The object literal [{tileWidth, tileHeight}]. *)
Definition sizeOptions (w h : Q) : Batch.TileOptions :=
  Batch.mkOptions None None (Some w) (Some h) None None None None None None None.

(** A loop whose body may throw: the first [None] ends it. *)
Fixpoint forEach {A S : Type} (body : A -> S -> option S) (l : list A) (s : S) : option S :=
  match l with
  | [] => Some s
  | a :: l' => s' ← body a s; forEach body l' s'
  end.

(** [layer.tile(...)] on the layer object a reference denotes.  [None] is a
    [TypeError]: the reference is [undefined] or the call itself throws. *)
Definition callTile (layer : option nat) (c : TileCall)
           (h : list Composite.CompositeTilemap) : option (list Composite.CompositeTilemap) :=
  lid ← layer;
  l ← h !! lid;
  l' ← Composite.tile l (Composite.RefNumber (setNumber c)) (at_x c) (at_y c) (options c);
  Some (<[lid := l']> h).

(** The call made by [_drawNormalTile]. *)
Definition normalTileCall (st : ShaderTilemap) (tileId : Z) (dx dy : Q) : TileCall :=
  let setNumber := if isTileA5 tileId then 4 else 5 + Js.floorDiv tileId 256 in
  let w := _tileWidth st in
  let h := _tileHeight st in
  let sx := (inject_Z (Js.rem (Js.floorDiv tileId 128) 2 * 8 + Js.rem tileId 8) * w)%Q in
  let sy := (inject_Z (Js.rem (Js.floorDiv (Js.rem tileId 256) 8) 16) * h)%Q in
  mkCall setNumber dx dy (frameOptions sx sy w h None None).

Definition _drawNormalTile (st : ShaderTilemap) (layer : option nat) (tileId : Z) (dx dy : Q)
           (h : list Composite.CompositeTilemap) : option (list Composite.CompositeTilemap) :=
  callTile layer (normalTileCall st tileId dx dy) h.

(** What the first half of [_drawAutotile] settles before its loop. *)
Record AutotileBase := mkBase {
  autotileTable : list (list (Z * Z));
  bx : Z;
  by_ : Z;
  baseSet : Z;
  isTable : bool;
  animX : Z;
  animY : Z
}.

Definition autotileBase (st : ShaderTilemap) (tileId : Z) : AutotileBase :=
  let kind := getAutotileKind tileId in
  let tx := Js.rem kind 8 in
  let ty := Js.floorDiv kind 8 in
  if isTileA1 tileId then
    if kind =? 0 then mkBase FLOOR_AUTOTILE_TABLE 0 0 0 false 2 0
    else if kind =? 1 then mkBase FLOOR_AUTOTILE_TABLE 0 3 0 false 2 0
    else if kind =? 2 then mkBase FLOOR_AUTOTILE_TABLE 6 0 0 false 0 0
    else if kind =? 3 then mkBase FLOOR_AUTOTILE_TABLE 6 3 0 false 0 0
    else
      let bx := Js.floorDiv tx 4 * 8 in
      let by_ := ty * 6 + Js.rem (Js.floorDiv tx 2) 2 * 3 in
      if Js.rem kind 2 =? 0 then mkBase FLOOR_AUTOTILE_TABLE bx by_ 0 false 2 0
      else mkBase WATERFALL_AUTOTILE_TABLE (bx + 6) by_ 0 false 0 1
  else if isTileA2 tileId then
    mkBase FLOOR_AUTOTILE_TABLE (tx * 2) ((ty - 2) * 3) 1 (_isTableTile st tileId) 0 0
  else if isTileA3 tileId then
    mkBase WALL_AUTOTILE_TABLE (tx * 2) ((ty - 6) * 2) 2 false 0 0
  else if isTileA4 tileId then
    mkBase (if Js.rem ty 2 =? 1 then WALL_AUTOTILE_TABLE else FLOOR_AUTOTILE_TABLE)
           (tx * 2)
           (Qfloor (inject_Z (ty - 10) * (5 # 2)
                    + (if Js.rem ty 2 =? 1 then 1 # 2 else 0))%Q)
           3 false 0 0
  else mkBase FLOOR_AUTOTILE_TABLE 0 0 0 false 0 0.

(** The calls of one turn [i] of the loop of [_drawAutotile], for the
    quadrant entry [(qsx, qsy) = table[i]]. *)
Definition quadrantCalls (st : ShaderTilemap) (b : AutotileBase) (dx dy : Q)
           (i : Z) (q : Z * Z) : list TileCall :=
  let w1 := (_tileWidth st / 2)%Q in
  let h1 := (_tileHeight st / 2)%Q in
  let qsx := fst q in
  let qsy := snd q in
  let sx1 := (inject_Z (bx b * 2 + qsx) * w1)%Q in
  let sy1 := (inject_Z (by_ b * 2 + qsy) * h1)%Q in
  let dx1 := (dx + inject_Z (Js.rem i 2) * w1)%Q in
  let dy1 := (dy + inject_Z (Js.floorDiv i 2) * h1)%Q in
  if isTable b && ((qsy =? 1) || (qsy =? 5)) then
    let qsx2 := if qsy =? 1 then Js.rem (4 - qsx) 4 else qsx in
    let qsy2 := 3 in
    let sx2 := (inject_Z (bx b * 2 + qsx2) * w1)%Q in
    let sy2 := (inject_Z (by_ b * 2 + qsy2) * h1)%Q in
    [ mkCall (baseSet b) dx1 dy1
             (frameOptions sx2 sy2 w1 h1 (Some (animX b)) (Some (animY b)));
      mkCall (baseSet b) dx1 (dy1 + h1 / 2)%Q
             (frameOptions sx1 sy1 w1 (h1 / 2)%Q (Some (animX b)) (Some (animY b))) ]
  else
    [ mkCall (baseSet b) dx1 dy1
             (frameOptions sx1 sy1 w1 h1 (Some (animX b)) (Some (animY b))) ].

(** All the calls of [_drawAutotile].  [None]: the shape has no entry in the
    table chosen ([table] is [undefined]), and [table[0][0]] throws a
    [TypeError] before any call is made. *)
Definition autotileCalls (st : ShaderTilemap) (tileId : Z) (dx dy : Q)
  : option (list TileCall) :=
  let b := autotileBase st tileId in
  table ← Js.index (autotileTable b) (getAutotileShape tileId);
  q0 ← table !! 0%nat;
  q1 ← table !! 1%nat;
  q2 ← table !! 2%nat;
  q3 ← table !! 3%nat;
  Some (quadrantCalls st b dx dy 0 q0 ++ quadrantCalls st b dx dy 1 q1
        ++ quadrantCalls st b dx dy 2 q2 ++ quadrantCalls st b dx dy 3 q3).

Definition _drawAutotile (st : ShaderTilemap) (layer : option nat) (tileId : Z) (dx dy : Q)
           (h : list Composite.CompositeTilemap) : option (list Composite.CompositeTilemap) :=
  calls ← autotileCalls st tileId dx dy;
  forEach (callTile layer) calls h.

(** The calls a tile id gives rise to in [_drawTile]. *)
Definition tileCalls (st : ShaderTilemap) (tileId : Z) (dx dy : Q) : option (list TileCall) :=
  if isVisibleTile tileId then
    if isAutotile tileId then autotileCalls st tileId dx dy
    else Some [normalTileCall st tileId dx dy]
  else Some [].

Definition _drawTile (st : ShaderTilemap) (layer : option nat) (tileId : Z) (dx dy : Q)
           (h : list Composite.CompositeTilemap) : option (list Composite.CompositeTilemap) :=
  if isVisibleTile tileId then
    if isAutotile tileId then _drawAutotile st layer tileId dx dy h
    else _drawNormalTile st layer tileId dx dy h
  else Some h.

(** The calls of [_drawTableEdge]. *)
Definition tableEdgeCalls (st : ShaderTilemap) (tileId : Z) (dx dy : Q)
  : option (list TileCall) :=
  if isTileA2 tileId then
    let kind := getAutotileKind tileId in
    let shape := getAutotileShape tileId in
    let tx := Js.rem kind 8 in
    let ty := Js.floorDiv kind 8 in
    let bx := tx * 2 in
    let by_ := (ty - 2) * 3 in
    let w1 := (_tileWidth st / 2)%Q in
    let h1 := (_tileHeight st / 2)%Q in
    let edge (i : Z) (q : Z * Z) :=
      mkCall 1 (dx + inject_Z (Js.rem i 2) * w1)%Q
             (dy + inject_Z (Js.floorDiv i 2) * h1)%Q
             (frameOptions (inject_Z (bx * 2 + fst q) * w1)%Q
                           (inject_Z (by_ * 2 + snd q) * h1 + h1 / 2)%Q
                           w1 (h1 / 2)%Q None None) in
    table ← Js.index FLOOR_AUTOTILE_TABLE shape;
    q2 ← table !! 2%nat;
    q3 ← table !! 3%nat;
    Some [edge 0 q2; edge 1 q3]
  else Some [].

Definition _drawTableEdge (st : ShaderTilemap) (layer : option nat) (tileId : Z) (dx dy : Q)
           (h : list Composite.CompositeTilemap) : option (list Composite.CompositeTilemap) :=
  calls ← tableEdgeCalls st tileId dx dy;
  forEach (callTile layer) calls h.

(** The calls of [_drawShadow]: one per set bit among the low four. *)
Definition shadowCalls (st : ShaderTilemap) (shadowBits : Z) (dx dy : Q) : list TileCall :=
  if Z.land shadowBits 15 =? 0 then []
  else
    let w1 := (_tileWidth st / 2)%Q in
    let h1 := (_tileHeight st / 2)%Q in
    flat_map
      (fun i : Z =>
         if Z.land shadowBits (Z.shiftl 1 i) =? 0 then []
         else [mkCall (-1) (dx + inject_Z (Js.rem i 2) * w1)%Q
                      (dy + inject_Z (Js.floorDiv i 2) * h1)%Q
                      (sizeOptions w1 h1)])
      [0; 1; 2; 3].

Definition _drawShadow (st : ShaderTilemap) (layer : option nat) (shadowBits : Z) (dx dy : Q)
           (h : list Composite.CompositeTilemap) : option (list Composite.CompositeTilemap) :=
  forEach (callTile layer) (shadowCalls st shadowBits dx dy) h.

(** *** Painting *)

(** [_paintTiles(startX, startY, x, y)] on the layer objects. *)
Definition _paintTiles (st : ShaderTilemap) (startX startY x y : Z)
           (h : list Composite.CompositeTilemap) : option (list Composite.CompositeTilemap) :=
  let mx := startX + x in
  let my := startY + y in
  let dx := (inject_Z x * _tileWidth st)%Q in
  let dy := (inject_Z y * _tileHeight st)%Q in
  let tileId0 := _readMapData st mx my 0 in
  let tileId1 := _readMapData st mx my 1 in
  let tileId2 := _readMapData st mx my 2 in
  let tileId3 := _readMapData st mx my 3 in
  let shadowBits := _readMapData st mx my 4 in
  let upperTileId1 := _readMapData st mx (my - 1) 1 in
  let lower (i : nat) := lowerLayer st !! i in
  let upper (i : nat) := upperLayer st !! i in
  h ← (if _isHigherTile st tileId0 then _drawTile st (upper 0%nat) tileId0 dx dy h
       else _drawTile st (lower 0%nat) tileId0 dx dy h);
  h ← (if _isHigherTile st tileId1 then _drawTile st (upper 1%nat) tileId1 dx dy h
       else _drawTile st (lower 1%nat) tileId1 dx dy h);
  h ← _drawShadow st (Some (shadowLayer st)) shadowBits dx dy h;
  h ← (if _isTableTile st upperTileId1 && negb (_isTableTile st tileId1)
       then if negb (isShadowingTile tileId0)
            then _drawTableEdge st (lower 2%nat) upperTileId1 dx dy h
            else Some h
       else Some h);
  if _isOverpassPosition st mx my then
    h ← _drawTile st (upper 2%nat) tileId2 dx dy h;
    _drawTile st (upper 3%nat) tileId3 dx dy h
  else
    h ← (if _isHigherTile st tileId2 then _drawTile st (upper 2%nat) tileId2 dx dy h
         else _drawTile st (lower 2%nat) tileId2 dx dy h);
    (if _isHigherTile st tileId3 then _drawTile st (upper 3%nat) tileId3 dx dy h
     else _drawTile st (lower 3%nat) tileId3 dx dy h).

(** A method that cannot throw, run on the layer object a reference
    denotes; [None] when there is no such object. *)
Definition onLayer (f : Composite.CompositeTilemap -> Composite.CompositeTilemap)
           (lid : nat) (h : list Composite.CompositeTilemap)
  : option (list Composite.CompositeTilemap) :=
  l ← h !! lid; Some (<[lid := f l]> h).

(** [layer.clear()] *)
Definition clearLayer : nat -> list Composite.CompositeTilemap ->
                        option (list Composite.CompositeTilemap) :=
  onLayer Composite.clear.

(** The values [0 .. n-1] of a counting loop. *)
Definition upto (n : Z) : list Z := map Z.of_nat (seq 0 (Z.to_nat n)).

(** The two nested loops over rows and columns. *)
Definition paintGrid (st : ShaderTilemap) (startX startY rows cols : Z)
           (h : list Composite.CompositeTilemap) : option (list Composite.CompositeTilemap) :=
  forEach (fun y => forEach (fun x => _paintTiles st startX startY x y) (upto cols))
          (upto rows) h.

(** [_paintAllTiles(startX, startY)] on the layer objects.  A zero tile size
    makes the source divide by zero in the viewport branch. *)
Definition paintAllLayers (st : ShaderTilemap) (startX startY : Z)
           (h : list Composite.CompositeTilemap) : option (list Composite.CompositeTilemap) :=
  h ← forEach clearLayer (lowerLayer st) h;
  h ← forEach clearLayer (upperLayer st) h;
  h ← clearLayer (shadowLayer st) h;
  if paintAll st then
    paintGrid st 0 0 (_mapHeight st) (_mapWidth st) h
  else
    let tileCols := Qceiling (_width st / _tileWidth st) + 1 in
    let tileRows := Qceiling (_height st / _tileHeight st) + 1 in
    paintGrid st startX startY tileRows tileCols h.

Definition _paintAllTiles (st : ShaderTilemap) (startX startY : Z) : option ShaderTilemap :=
  h ← paintAllLayers st startX startY (layers st); Some (withLayers st h).

(** [this.origin], floored when [roundPixels] is set. *)
Definition roundedOrigin (st : ShaderTilemap) : Q * Q :=
  if roundPixels st
  then (inject_Z (Qfloor (fst (origin st))), inject_Z (Qfloor (snd (origin st))))
  else origin st.

(** [layer.position = value] *)
Definition setPosition (p : Q * Q) (l : Composite.CompositeTilemap) : Composite.CompositeTilemap :=
  Composite.mkComposite (Composite.children l) (Composite.shadowId l)
                        (Composite.tileAnim l) p.

Definition placeLayer (p : Q * Q) : nat -> list Composite.CompositeTilemap ->
                                    option (list Composite.CompositeTilemap) :=
  onLayer (setPosition p).

Definition _updateLayerPositions (st : ShaderTilemap) (startX startY : Z)
  : option ShaderTilemap :=
  let o := roundedOrigin st in
  let p := (inject_Z startX * _tileWidth st - fst o,
            inject_Z startY * _tileHeight st - snd o)%Q in
  h ← forEach (placeLayer p) (lowerLayer st) (layers st);
  h ← forEach (placeLayer p) (upperLayer st) h;
  h ← placeLayer p (shadowLayer st) h;
  Some (withLayers st h).

(** [_repaint(force)] *)
Definition _repaint (st : ShaderTilemap) (force : bool) : option ShaderTilemap :=
  let o := roundedOrigin st in
  if paintAll st then
    st ← _updateLayerPositions st 0 0;
    if force then _paintAllTiles st 0 0 else Some st
  else
    let startX := Qfloor ((fst o - _margin st) / _tileWidth st) in
    let startY := Qfloor ((snd o - _margin st) / _tileHeight st) in
    st ← _updateLayerPositions st startX startY;
    if force || Js.strictNeq (_lastStartX st) (Some startX)
             || Js.strictNeq (_lastStartY st) (Some startY)
    then _paintAllTiles (withLastStart st (Some startX) (Some startY)) startX startY
    else Some st.

Definition _createLayers (st : ShaderTilemap) : option ShaderTilemap := _repaint st true.


(** [layer.tileset(bitmaps)] on the layer object a reference denotes. *)
Definition seedLayer (ts : list Batch.Texture) (lid : nat)
           (h : list Composite.CompositeTilemap) : option (list Composite.CompositeTilemap) :=
  l ← h !! lid; l' ← Composite.tileset l ts; Some (<[lid := l']> h).

(** [_updateBitmaps]: the defined bitmaps, in order, seed the buffers of
    the lower and upper layers.  The source hands over each bitmap's
    [source]; a buffer is keyed by that same source. *)
Definition _updateBitmaps (st : ShaderTilemap) : option ShaderTilemap :=
  let bitmaps := omap id (bitmaps st) in
  h ← forEach (seedLayer bitmaps) (lowerLayer st) (layers st);
  h ← forEach (seedLayer bitmaps) (upperLayer st) h;
  Some (withLayers st h).

(** [refresh()] *)
Definition refresh (st : ShaderTilemap) : option ShaderTilemap :=
  st ← (if negb (_lastBitmapLength st =? Z.of_nat (length (bitmaps st)))
        then _updateBitmaps (withLastBitmapLength st (Z.of_nat (length (bitmaps st))))
        else Some st);
  _repaint st true.

(** *** Animation *)

(** The two offsets [updateDelta] hands to [updateTileAnim]. *)
Definition tileAnimOffsets (st : ShaderTilemap) (animationFrame : Z) : Q * Q :=
  let af := Js.rem animationFrame 4 in
  let af := if af =? 3 then 1 else af in
  (inject_Z af * _tileWidth st, inject_Z (Js.rem animationFrame 3) * _tileHeight st)%Q.

(** [layer.tileAnim = [x, y]]: a plain assignment to the field, the buffers
    of the layer are not told. *)
Definition assignTileAnim (p : Q * Q) (l : Composite.CompositeTilemap)
  : Composite.CompositeTilemap :=
  Composite.mkComposite (Composite.children l) (Composite.shadowId l)
                        p (Composite.position l).

Definition animLayer (p : Q * Q) : nat -> list Composite.CompositeTilemap ->
                                   option (list Composite.CompositeTilemap) :=
  onLayer (assignTileAnim p).

Definition updateTileAnim (st : ShaderTilemap) (x y : Q) : option ShaderTilemap :=
  h ← forEach (animLayer (x, y)) (lowerLayer st) (layers st);
  h ← forEach (animLayer (x, y)) (upperLayer st) h;
  Some (withLayers st h).

(** [updateDelta(delta)] of the abstract [Tilemap]. *)
Definition updateDelta (st : ShaderTilemap) (delta : Q) : option ShaderTilemap :=
  let c := Clock.updateDelta (animationCount st) delta in
  let st := withAnimation st c (Clock.value c) in
  let p := tileAnimOffsets st (animationFrame st) in
  updateTileAnim st (fst p) (snd p).

(** *** Construction *)

(** The fields as the initialisers and the [Tilemap] constructor leave them,
    before any layer exists. *)
Definition fields0 (width height : Q) (paintAll : bool) : ShaderTilemap :=
  mkShader 20 48 48 0 0 None [] (0%Q, 0%Q) [] Clock.animationCount0
           false false 0 (width + 20 * 2)%Q (height + 20 * 2)%Q
           false (-1) None None [] [] 0%nat paintAll (0%Q, 0%Q) [] [].

(** [Array.from({length: n}, () => new CompositeTilemap())]: the references
    to [n] new layer objects, and the store holding them. *)
Definition newLayers (n : nat) (h : list Composite.CompositeTilemap)
  : list nat * list Composite.CompositeTilemap :=
  (seq (length h) n, h ++ repeat Composite.new n).

(** The layers made by the constructor and their order in the display list. *)
Definition withNewLayers (st : ShaderTilemap) : option ShaderTilemap :=
  let '(lowerLayer, h) := newLayers 4 (layers st) in
  l0 ← lowerLayer !! 0%nat;
  l1 ← lowerLayer !! 1%nat;
  let children := children st ++ [l0; l1] in
  let '(shadow, h) := newLayers 1 h in
  shadowLayer ← shadow !! 0%nat;
  let children := children ++ [shadowLayer] in
  l2 ← lowerLayer !! 2%nat;
  l3 ← lowerLayer !! 3%nat;
  let children := children ++ [l2; l3] in
  let '(upperLayer, h) := newLayers 4 h in
  let children := children ++ upperLayer in
  Some (mkShader (_margin st) (_tileWidth st) (_tileHeight st) (_mapWidth st) (_mapHeight st)
           (_mapData st) (bitmaps st) (_scrollOrigin st) (flags st) (animationCount st)
           (horizontalWrap st) (verticalWrap st) (animationFrame st) (_width st) (_height st)
           (roundPixels st) (_lastBitmapLength st) (_lastStartX st) (_lastStartY st)
           lowerLayer upperLayer shadowLayer (paintAll st) (origin st)
           children h).

(** [new ShaderTilemap(width, height, paintAll)] *)
Definition construct (width height : Q) (paintAll : bool) : option ShaderTilemap :=
  st ← withNewLayers (fields0 width height paintAll);
  st ← _createLayers st;
  refresh st.

End Rmmv.

(** ** The specification's own wording, for comparison with the code *)

Module Documented.

Inductive Band := B | C | D | E | A5 | A1 | A2 | A3 | A4.

(** The documented numeric range [lo, hi) of each band. *)
Definition range (b : Band) : Z * Z :=
  match b with
  | B => (0, 256)
  | C => (256, 512)
  | D => (512, 768)
  | E => (768, 1024)
  | A5 => (1536, 2048)
  | A1 => (2048, 2816)
  | A2 => (2816, 4352)
  | A3 => (4352, 5888)
  | A4 => (5888, 8192)
  end.

Definition inBand (b : Band) (id : Z) : bool :=
  (fst (range b) <=? id) && (id <? snd (range b)).

(** "IDs >= 8192 or <= 0 are invisible". *)
Definition invisible (id : Z) : bool := (id <=? 0) || (8192 <=? id).

(** The ten classifications, in the order of the documentation. *)
Definition classes (id : Z) : list bool :=
  invisible id :: map (fun b => inBand b id) [B; C; D; E; A5; A1; A2; A3; A4].

(** "indices 0-8 correspond to ... A5, A1, A2, A3, A4, B, C, D, E". *)
Definition slotOrder : list Band := [A5; A1; A2; A3; A4; B; C; D; E].

(** "col = floor(frame/4) mod 3, row = frame mod 4 with row 3 remapped to
    row 1", scaled by the tile width and the tile height. *)
Definition animationOffsets (tileWidth tileHeight : Q) (frame : Z) : Q * Q :=
  let col := (frame / 4) mod 3 in
  let row := if frame mod 4 =? 3 then 1 else frame mod 4 in
  (inject_Z col * tileWidth, inject_Z row * tileHeight)%Q.


End Documented.

(** ** Classification by the code *)

Module Classify.

(** How many of a list of conditions hold. *)
Fixpoint holding (l : list bool) : nat :=
  match l with
  | [] => 0
  | b :: l' => (if b then 1 else 0) + holding l'
  end.

(** The tile is drawn by [_drawNormalTile] and is not an A5 tile: its set
    number is [5 + floor(id / 256)]. *)
Definition plainTile (id : Z) : bool :=
  Rmmv.isVisibleTile id && negb (Rmmv.isAutotile id) && negb (Rmmv.isTileA5 id).

Definition plainSet (id : Z) : Z := 5 + Js.floorDiv id 256.

(** The bands B to E as the renderer tells them apart. *)
Definition isTileB (id : Z) : bool := plainTile id && (plainSet id =? 5).
Definition isTileC (id : Z) : bool := plainTile id && (plainSet id =? 6).
Definition isTileD (id : Z) : bool := plainTile id && (plainSet id =? 7).
Definition isTileE (id : Z) : bool := plainTile id && (plainSet id =? 8).

(** Visible, not an autotile, and in none of B, C, D, E, A5. *)
Definition isUnassigned (id : Z) : bool := plainTile id && (8 <? plainSet id).

Definition invisible (id : Z) : bool := negb (Rmmv.isVisibleTile id).

(** The classifications the code makes, the unassigned ids included. *)
Definition classes (id : Z) : list bool :=
  [ invisible id; isTileB id; isTileC id; isTileD id; isTileE id; isUnassigned id;
    Rmmv.isTileA5 id; Rmmv.isTileA1 id; Rmmv.isTileA2 id; Rmmv.isTileA3 id;
    Rmmv.isTileA4 id ].

(** The order of the texture slots the decoder works with. *)
Definition slotOrder : list Documented.Band :=
  [Documented.A1; Documented.A2; Documented.A3; Documented.A4; Documented.A5;
   Documented.B; Documented.C; Documented.D; Documented.E].

End Classify.

(** ** Invariants, reachable states and sample inputs *)

(** The state of a clock that has seen the time [T] since its start. *)
Definition clockInv (c : Clock.CounterInterpolator) (T : Q) : Prop :=
  Clock.bound c = 12 /\ (Clock.inteval c == 1 # 2)%Q
  /\ exists N : Z, 0 <= N /\ Clock._current c = N mod 12
     /\ (inject_Z N * (1 # 2) + Clock._cumulated c == T)%Q
     /\ (0 <= Clock._cumulated c)%Q /\ (Clock._cumulated c < 1 # 2)%Q.

(** Every row of a quadrant table has four entries, with horizontal source
    indices between 0 and 3. *)
Definition rowsOk (t : list (list (Z * Z))) : bool :=
  forallb (fun row => (length row =? 4)%nat
                      && forallb (fun q : Z * Z => (0 <=? fst q) && (fst q <=? 3)) row) t.




(** The reserved shadow buffer of a composite layer: not made yet, or one of
    the layer's buffers. *)
Definition shadowOk (c : Composite.CompositeTilemap) : Prop :=
  Composite.shadowId c = -1
  \/ (0 <= Composite.shadowId c < Z.of_nat (length (Composite.children c))).

(** The sources of the buffers of a composite layer, in order. *)
Definition sources (c : Composite.CompositeTilemap) : list nat :=
  map (fun b => Batch.source (Batch.baseTexture b)) (Composite.children c).

(** The two triangles of quad [i]. *)
Definition quadIndices (i : nat) : list Z :=
  let pntBase := Z.of_nat (i * 4) in
  [pntBase; pntBase + 1; pntBase + 2; pntBase; pntBase + 2; pntBase + 3].

(** The value at place [j] of an index array of quads. *)
Definition triIndex (j : nat) : Z :=
  Z.of_nat (j / 6 * 4) + nth (j mod 6) [0; 1; 2; 0; 2; 3] 0.

(** How many of the low four bits of a shadow mask are set. *)
Definition shadowCount (shadowBits : Z) : nat :=
  length (List.filter (fun i => Z.testbit shadowBits i) [0; 1; 2; 3]).


(** A renderer for a 96 by 96 pixel surface, as its constructor leaves it,
    and the same renderer seven tenths of a second later. *)
Definition sampleRenderer : Rmmv.ShaderTilemap :=
  Eval vm_compute in Js.nullish (Rmmv.construct 96 96 false) (Rmmv.fields0 96 96 false).

Definition sampleTicked : Rmmv.ShaderTilemap :=
  Eval vm_compute in Js.nullish (Rmmv.updateDelta sampleRenderer (7 # 10)) sampleRenderer.


(** * Properties *)

(** ** Tile-id bands *)

Ltac cmp_cases :=
  repeat match goal with
    | |- context [?a <? ?b] => destruct (Z.ltb_spec a b)
    | |- context [?a <=? ?b] => destruct (Z.leb_spec a b)
    | |- context [?a =? ?b] => destruct (Z.eqb_spec a b)
    end.

(** Settles every comparison of the goal that the hypotheses decide. *)
Ltac cmp_settle :=
  repeat match goal with
    | |- context [?a <? ?b] =>
        first [ replace (a <? b) with true by (symmetry; apply Z.ltb_lt; lia)
              | replace (a <? b) with false by (symmetry; apply Z.ltb_ge; lia) ]
    | |- context [?a <=? ?b] =>
        first [ replace (a <=? b) with true by (symmetry; apply Z.leb_le; lia)
              | replace (a <=? b) with false by (symmetry; apply Z.leb_gt; lia) ]
    end.

Ltac band_unfold :=
  unfold Classify.classes, Classify.invisible, Classify.isUnassigned, Classify.isTileB,
    Classify.isTileC, Classify.isTileD, Classify.isTileE, Classify.plainTile,
    Classify.plainSet, Rmmv.isVisibleTile, Rmmv.isAutotile, Rmmv.isTileA1, Rmmv.isTileA2,
    Rmmv.isTileA3, Rmmv.isTileA4, Rmmv.isTileA5, Rmmv.TILE_ID_A1, Rmmv.TILE_ID_A2,
    Rmmv.TILE_ID_A3, Rmmv.TILE_ID_A4, Rmmv.TILE_ID_A5, Rmmv.TILE_ID_MAX, Js.floorDiv in *.

















(** ** Texture slots *)

Lemma quadrantCalls_set st b dx dy i q c :
  In c (Rmmv.quadrantCalls st b dx dy i q) -> Rmmv.setNumber c = Rmmv.baseSet b.
Proof.
  unfold Rmmv.quadrantCalls. destruct (_ && _); simpl; intros H;
    repeat (destruct H as [<-|H]; [reflexivity|]); destruct H.
Qed.

Lemma autotileCalls_inv st id dx dy calls :
  Rmmv.autotileCalls st id dx dy = Some calls ->
  exists table q0 q1 q2 q3,
    Js.index (Rmmv.autotileTable (Rmmv.autotileBase st id)) (Rmmv.getAutotileShape id)
      = Some table
    /\ table !! 0%nat = Some q0 /\ table !! 1%nat = Some q1
    /\ table !! 2%nat = Some q2 /\ table !! 3%nat = Some q3
    /\ calls = Rmmv.quadrantCalls st (Rmmv.autotileBase st id) dx dy 0 q0
               ++ Rmmv.quadrantCalls st (Rmmv.autotileBase st id) dx dy 1 q1
               ++ Rmmv.quadrantCalls st (Rmmv.autotileBase st id) dx dy 2 q2
               ++ Rmmv.quadrantCalls st (Rmmv.autotileBase st id) dx dy 3 q3.
Proof.
  unfold Rmmv.autotileCalls.
  destruct (Js.index _ _) as [table|]; simpl; [|discriminate].
  destruct (table !! 0%nat) as [q0|] eqn:E0; simpl; [|discriminate].
  destruct (table !! 1%nat) as [q1|] eqn:E1; simpl; [|discriminate].
  destruct (table !! 2%nat) as [q2|] eqn:E2; simpl; [|discriminate].
  destruct (table !! 3%nat) as [q3|] eqn:E3; simpl; [|discriminate].
  intros [= <-]. exists table, q0, q1, q2, q3. repeat split; assumption.
Qed.

Lemma autotileCalls_set st id dx dy calls c :
  Rmmv.autotileCalls st id dx dy = Some calls -> In c calls ->
  Rmmv.setNumber c = Rmmv.baseSet (Rmmv.autotileBase st id).
Proof.
  intros H Hin.
  destruct (autotileCalls_inv _ _ _ _ _ H) as (t & q0 & q1 & q2 & q3 & _ & _ & _ & _ & _ & ->).
  repeat (apply in_app_or in Hin as [Hin|Hin]; [exact (quadrantCalls_set _ _ _ _ _ _ _ Hin)|]).
  exact (quadrantCalls_set _ _ _ _ _ _ _ Hin).
Qed.

Lemma baseSet_of_band st id :
  Rmmv.baseSet (Rmmv.autotileBase st id) =
    if Rmmv.isTileA1 id then 0
    else if Rmmv.isTileA2 id then 1
    else if Rmmv.isTileA3 id then 2
    else if Rmmv.isTileA4 id then 3 else 0.
Proof.
  unfold Rmmv.autotileBase.
  destruct (Rmmv.isTileA1 id).
  - repeat match goal with |- context [if ?c then _ else _] => destruct c end; reflexivity.
  - destruct (Rmmv.isTileA2 id); [reflexivity|].
    destruct (Rmmv.isTileA3 id); [reflexivity|].
    destruct (Rmmv.isTileA4 id); reflexivity.
Qed.

Lemma range_bounds b id :
  Documented.inBand b id = true ->
  fst (Documented.range b) <= id < snd (Documented.range b).
Proof.
  unfold Documented.inBand. intros H. apply andb_true_iff in H as [H1 H2].
  apply Z.leb_le in H1. apply Z.ltb_lt in H2. lia.
Qed.

Lemma slot_of_A5_is_4 :
  option_map (map Rmmv.setNumber) (Rmmv.tileCalls (Rmmv.fields0 0 0 false) 1536 0 0)
    = Some [4]
  /\ Documented.inBand Documented.A5 1536 = true
  /\ Documented.slotOrder !! 4%nat = Some Documented.A4.
Proof. repeat split. Qed.

(** C2, as documented, fails: an A5 tile (id 1536) is sent to slot 4, which
    the documented order gives to A4, not to slot 0. *)
Lemma documented_slot_order_fails :
  ~ (forall st id dx dy b calls c,
       Rmmv.isVisibleTile id = true -> Documented.inBand b id = true ->
       Rmmv.tileCalls st id dx dy = Some calls -> In c calls ->
       Documented.slotOrder !! Z.to_nat (Rmmv.setNumber c) = Some b).
Proof.
  intros H.
  specialize (H (Rmmv.fields0 0 0 false) 1536 0%Q 0%Q Documented.A5 _
                (Rmmv.normalTileCall (Rmmv.fields0 0 0 false) 1536 0 0)
                eq_refl eq_refl eq_refl (or_introl eq_refl)).
  discriminate H.
Qed.

(** C2, amended: every draw call the decoder makes for a visible tile id of
    a band carries the slot index of that band under the order A1, A2, A3,
    A4, A5, B, C, D, E for the indices 0 to 8 (slots 0-3 receive the
    autotiles A1-A4, slot 4 the A5 tiles, slots 5-8 the B-E tiles); when the
    decoder returns at all it makes at least one call. *)
Theorem decoder_slot_of_band st id dx dy b calls c
  (Hvis : Rmmv.isVisibleTile id = true)
  (Hband : Documented.inBand b id = true)
  (Hcalls : Rmmv.tileCalls st id dx dy = Some calls)
  (Hin : In c calls) :
  Classify.slotOrder !! Z.to_nat (Rmmv.setNumber c) = Some b
  /\ 0 <= Rmmv.setNumber c <= 8
  /\ calls <> [].
Proof.
  assert (Hne : calls <> []) by (intros ->; destruct Hin).
  apply range_bounds in Hband.
  unfold Rmmv.tileCalls in Hcalls. rewrite Hvis in Hcalls.
  assert (Hset : Rmmv.setNumber c =
                 match b with
                 | Documented.A1 => 0 | Documented.A2 => 1 | Documented.A3 => 2
                 | Documented.A4 => 3 | Documented.A5 => 4 | Documented.B => 5
                 | Documented.C => 6 | Documented.D => 7 | Documented.E => 8
                 end).
  { destruct (Rmmv.isAutotile id) eqn:Hauto.
    - rewrite (autotileCalls_set _ _ _ _ _ _ Hcalls Hin), baseSet_of_band.
      destruct b; simpl in Hband; band_unfold; cmp_cases; simpl; try reflexivity;
        try discriminate; lia.
    - injection Hcalls as <-. destruct Hin as [<-|[]].
      unfold Rmmv.normalTileCall; simpl.
      destruct b; simpl in Hband; band_unfold; cmp_cases; simpl; try discriminate;
        try (Z.to_euclidean_division_equations; lia). }
  rewrite Hset. destruct b; simpl; repeat split; try reflexivity; try lia; exact Hne.
Qed.

Lemma decoder_slot_of_band_witness :
  Classify.slotOrder !! Z.to_nat
    (Rmmv.setNumber (Rmmv.normalTileCall (Rmmv.fields0 0 0 false) 1536 0 0))
  = Some Documented.A5.
Proof.
  exact (proj1 (decoder_slot_of_band (Rmmv.fields0 0 0 false) 1536 0%Q 0%Q Documented.A5
                  [Rmmv.normalTileCall (Rmmv.fields0 0 0 false) 1536 0 0]
                  (Rmmv.normalTileCall (Rmmv.fields0 0 0 false) 1536 0 0)
                  eq_refl eq_refl eq_refl (or_introl eq_refl))).
Defined.

(** ** The animation clock *)


Lemma Qfloor_scaled (q i : Q) :
  (0 < i)%Q ->
  (0 <= q - inject_Z (Qfloor (q / i)) * i)%Q
  /\ (q - inject_Z (Qfloor (q / i)) * i < i)%Q.
Proof.
  intros Hi.
  pose proof (Qfloor_le (q / i)) as H1.
  pose proof (Qlt_floor (q / i)) as H2.
  rewrite inject_Z_plus in H2. change (inject_Z 1) with 1%Q in H2.
  assert (Hq : (q / i * i == q)%Q) by (field; lra).
  set (d := (q / i)%Q) in *. set (a := inject_Z (Qfloor d)) in *.
  split; nra.
Qed.

Lemma clockInv_start : clockInv Clock.animationCount0 0.
Proof.
  split; [reflexivity|]. split; [reflexivity|].
  exists 0. split; [lia|]. split; [reflexivity|].
  split; [reflexivity|]. split; [discriminate|reflexivity].
Qed.

Lemma clockInv_step c T delta :
  clockInv c T -> (0 <= delta)%Q -> clockInv (Clock.updateDelta c delta) (T + delta).
Proof.
  intros (Hb & Hi & N & HN & Hcur & HT & H0 & H1) Hd.
  unfold Clock.updateDelta.
  destruct (Qle_bool (Clock.inteval c) (Clock._cumulated c + delta)) eqn:Hle.
  - assert (Hpos : (0 < Clock.inteval c)%Q) by (rewrite Hi; reflexivity).
    destruct (Qfloor_scaled (Clock._cumulated c + delta) (Clock.inteval c) Hpos)
      as [Hlo Hhi].
    set (cnt := Qfloor ((Clock._cumulated c + delta) / Clock.inteval c)) in *.
    assert (Hcnt : 0 <= cnt).
    { apply Qfloor_resp_le with (x := 0%Q).
      apply Qle_shift_div_l; [exact Hpos|]. lra. }
    repeat split; simpl; try assumption.
    exists (N + cnt). repeat split; simpl.
    + lia.
    + unfold Js.rem. rewrite Hb, Hcur, Z.rem_mod_nonneg.
      * rewrite Zplus_mod_idemp_l. reflexivity.
      * pose proof (Z.mod_pos_bound N 12). lia.
      * lia.
    + rewrite inject_Z_plus. rewrite Hi in *. lra.
    + exact Hlo.
    + rewrite Hi in Hhi at 2. exact Hhi.
  - assert (Hlt : (Clock._cumulated c + delta < Clock.inteval c)%Q).
    { apply Qnot_le_lt. intros Hc. apply Qle_bool_iff in Hc. congruence. }
    repeat split; simpl; try assumption.
    exists N. repeat split; simpl; try assumption.
    + lra.
    + lra.
    + rewrite Hi in Hlt. exact Hlt.
Qed.






(** ** Methods run on every layer of a list *)

Lemma forEach_onLayer f ids :
  (forall l, f (f l) = f l) ->
  forall h h', Rmmv.forEach (Rmmv.onLayer f) ids h = Some h' ->
  length h' = length h
  /\ (forall lid, In lid ids -> is_Some (h !! lid))
  /\ (forall lid, h' !! lid = if in_dec Nat.eq_dec lid ids then f <$> h !! lid else h !! lid).
Proof.
  intros Hf. induction ids as [|a ids IH]; intros h h' Hrun; simpl in Hrun.
  - injection Hrun as <-. split; [reflexivity|]. split; [intros lid []|].
    intros lid. destruct (in_dec Nat.eq_dec lid []) as [[]|]; reflexivity.
  - destruct (Rmmv.onLayer f a h) as [h1|] eqn:E1; simpl in Hrun; [|discriminate].
    unfold Rmmv.onLayer in E1.
    destruct (h !! a) as [l|] eqn:Ha; simpl in E1; [|discriminate].
    injection E1 as <-.
    destruct (IH _ _ Hrun) as (Hlen & Hsome & Hlook).
    rewrite length_insert in Hlen.
    split; [exact Hlen|]. split.
    + intros lid [<-|Hin]; [rewrite Ha; eauto|].
      specialize (Hsome lid Hin).
      destruct (decide (a = lid)) as [<-|Hne]; [rewrite Ha; eauto|].
      rewrite list_lookup_insert_ne in Hsome by exact Hne. exact Hsome.
    + intros lid. rewrite Hlook.
      assert (Hlt : (a < length h)%nat) by (apply lookup_lt_is_Some; eauto).
      destruct (decide (a = lid)) as [<-|Hne].
      * rewrite list_lookup_insert_eq by exact Hlt. rewrite Ha.
        destruct (in_dec Nat.eq_dec a (a :: ids)) as [_|Hn];
          [|destruct Hn; left; reflexivity].
        destruct (in_dec Nat.eq_dec a ids); simpl; rewrite ?Hf; reflexivity.
      * rewrite list_lookup_insert_ne by exact Hne.
        destruct (in_dec Nat.eq_dec lid ids) as [Hin|Hnin];
          destruct (in_dec Nat.eq_dec lid (a :: ids)) as [Hin'|Hnin']; try reflexivity.
        -- destruct Hnin'. right. exact Hin.
        -- destruct Hin' as [->|Hin']; [destruct Hne; reflexivity|destruct Hnin; exact Hin'].
Qed.


(** ** Animation offsets *)

Lemma tileAnimOffsets_mod st frame :
  0 <= frame ->
  Rmmv.tileAnimOffsets st frame =
    (inject_Z (if frame mod 4 =? 3 then 1 else frame mod 4) * Rmmv._tileWidth st,
     inject_Z (frame mod 3) * Rmmv._tileHeight st)%Q.
Proof.
  intros H. unfold Rmmv.tileAnimOffsets, Js.rem.
  rewrite !Z.rem_mod_nonneg by lia. reflexivity.
Qed.

Lemma offsets_at_frame_1 :
  (fst (Rmmv.tileAnimOffsets (Rmmv.fields0 0 0 false) 1) == 48)%Q
  /\ (fst (Documented.animationOffsets 48 48 1) == 0)%Q.
Proof. split; reflexivity. Qed.

(** C6, as documented, fails: at counter value 1 the horizontal offset is one
    tile width, where column floor(1/4) mod 3 = 0 would give none. *)
Lemma documented_animation_axes_fail :
  ~ (forall st frame, 0 <= frame < 12 ->
       (fst (Rmmv.tileAnimOffsets st frame)
        == fst (Documented.animationOffsets (Rmmv._tileWidth st) (Rmmv._tileHeight st) frame))%Q
       /\ (snd (Rmmv.tileAnimOffsets st frame)
        == snd (Documented.animationOffsets (Rmmv._tileWidth st) (Rmmv._tileHeight st) frame))%Q).
Proof.
  intros H. destruct (H (Rmmv.fields0 0 0 false) 1 ltac:(lia)) as [Hx _].
  discriminate Hx.
Qed.

(** C6, amended: for every value frame of the animation counter the offsets
    handed to the layers are, horizontally, frame mod 4 with 3 remapped to 1
    (the cycle 0, 1, 2, 1), times the tile width, and, vertically,
    frame mod 3, times the tile height; every update stores this pair as
    the tileAnim of each lower and each upper layer. *)
Theorem animation_offsets st T delta st'
  (Hclock : clockInv (Rmmv.animationCount st) T)
  (Hdelta : (0 <= delta)%Q)
  (Hrun : Rmmv.updateDelta st delta = Some st') :
  let frame := Rmmv.animationFrame st' in
  frame = Clock.value (Clock.updateDelta (Rmmv.animationCount st) delta)
  /\ 0 <= frame < 12
  /\ forall lid, In lid (Rmmv.lowerLayer st ++ Rmmv.upperLayer st) ->
       exists l, Rmmv.layers st' !! lid = Some l
         /\ Composite.tileAnim l =
              (inject_Z (if frame mod 4 =? 3 then 1 else frame mod 4) * Rmmv._tileWidth st,
               inject_Z (frame mod 3) * Rmmv._tileHeight st)%Q.
Proof.
  intros frame. unfold Rmmv.updateDelta, Rmmv.updateTileAnim in Hrun.
  set (c := Clock.updateDelta (Rmmv.animationCount st) delta) in *.
  set (st1 := Rmmv.withAnimation st c (Clock.value c)) in *.
  rewrite <- surjective_pairing in Hrun.
  set (p := Rmmv.tileAnimOffsets st1 (Rmmv.animationFrame st1)) in *.
  destruct (Rmmv.forEach (Rmmv.animLayer p) (Rmmv.lowerLayer st1) (Rmmv.layers st1))
    as [h1|] eqn:E1; [|discriminate].
  cbn [mbind option_bind] in Hrun.
  destruct (Rmmv.forEach (Rmmv.animLayer p) (Rmmv.upperLayer st1) h1)
    as [h2|] eqn:E2; [|discriminate].
  cbn [mbind option_bind] in Hrun.
  injection Hrun as <-.
  assert (Hidem : forall l, Rmmv.assignTileAnim p (Rmmv.assignTileAnim p l)
                            = Rmmv.assignTileAnim p l) by reflexivity.
  destruct (forEach_onLayer _ _ Hidem _ _ E1) as (_ & Hs1 & Hl1).
  destruct (forEach_onLayer _ _ Hidem _ _ E2) as (_ & Hs2 & Hl2).
  assert (Hframe : 0 <= Clock.value c < 12).
  { destruct (clockInv_step _ _ _ Hclock Hdelta) as (_ & _ & N & HN & Hcur & _).
    fold c in Hcur. unfold Clock.value. rewrite Hcur. apply Z.mod_pos_bound. lia. }
  assert (Hp : p = (inject_Z (if Clock.value c mod 4 =? 3 then 1 else Clock.value c mod 4)
                     * Rmmv._tileWidth st,
                    inject_Z (Clock.value c mod 3) * Rmmv._tileHeight st)%Q).
  { unfold p. simpl. rewrite tileAnimOffsets_mod by lia. reflexivity. }
  subst frame. simpl. split; [reflexivity|]. split; [exact Hframe|].
  intros lid Hin. rewrite <- Hp. simpl in *.
  rewrite Hl2, Hl1.
  apply in_app_or in Hin.
  destruct (in_dec Nat.eq_dec lid (Rmmv.upperLayer st)) as [Hu|Hu].
  - destruct (Hs2 lid Hu) as [l Hl]. rewrite Hl1 in Hl. rewrite Hl. simpl.
    eexists. split; reflexivity.
  - destruct Hin as [Hlo|Hup]; [|contradiction].
    destruct (in_dec Nat.eq_dec lid (Rmmv.lowerLayer st)) as [_|Hn]; [|contradiction].
    destruct (Hs1 lid Hlo) as [l Hl]. rewrite Hl. simpl.
    eexists. split; reflexivity.
Qed.

(** ** Numeric tile references *)

Lemma tile_appends b t x y o :
  Batch.pointsBuf (Batch.tile b t x y o)
  = Batch.pointsBuf b ++ [Batch.pointOf (Js.nullish t (Batch.baseTexture b)) x y o].
Proof. reflexivity. Qed.



(** ** Quadrants of an autotile *)

Lemma isTable_base st id :
  Rmmv.isTable (Rmmv.autotileBase st id) = Rmmv._isTableTile st id.
Proof.
  unfold Rmmv.autotileBase, Rmmv._isTableTile.
  destruct (Rmmv.isTileA1 id) eqn:H1.
  - assert (H2 : Rmmv.isTileA2 id = false)
      by (revert H1; band_unfold; cmp_cases; simpl; intros; try reflexivity; try discriminate; lia).
    rewrite H2.
    repeat match goal with |- context [if ?c then _ else _] => destruct c end; reflexivity.
  - destruct (Rmmv.isTileA2 id) eqn:H2; [reflexivity|].
    destruct (Rmmv.isTileA3 id); [reflexivity|].
    destruct (Rmmv.isTileA4 id); reflexivity.
Qed.

Lemma table_base st id :
  Rmmv._isTableTile st id = true ->
  Rmmv.isTileA2 id = true
  /\ Rmmv.autotileBase st id =
       Rmmv.mkBase Rmmv.FLOOR_AUTOTILE_TABLE
                   (Rmmv.getAutotileKind id mod 8 * 2)
                   ((Rmmv.getAutotileKind id / 8 - 2) * 3) 1 true 0 0.
Proof.
  intros Ht. assert (H2 : Rmmv.isTileA2 id = true).
  { unfold Rmmv._isTableTile in Ht. apply andb_true_iff in Ht. tauto. }
  split; [exact H2|].
  assert (H1 : Rmmv.isTileA1 id = false)
    by (revert H2; band_unfold; cmp_cases; simpl; intros; try reflexivity; try discriminate; lia).
  assert (Hk : 0 <= Rmmv.getAutotileKind id).
  { revert H2. unfold Rmmv.getAutotileKind. band_unfold. cmp_cases; simpl; intros;
      try discriminate. Z.to_euclidean_division_equations; lia. }
  unfold Rmmv.autotileBase. rewrite H1, H2, Ht. unfold Js.rem, Js.floorDiv.
  rewrite Z.rem_mod_nonneg by lia. reflexivity.
Qed.

Lemma rowsOk_lookup t n row :
  rowsOk t = true -> Js.index t n = Some row ->
  length row = 4%nat /\ forall i q, row !! i = Some q -> 0 <= fst q <= 3.
Proof.
  unfold rowsOk, Js.index. intros Hok Hrow.
  destruct (0 <=? n); [|discriminate].
  rewrite forallb_forall in Hok.
  specialize (Hok row ltac:(apply list_elem_of_In; eapply list_elem_of_lookup_2; exact Hrow)).
  apply andb_true_iff in Hok as [Hlen Hall]. apply Nat.eqb_eq in Hlen.
  split; [exact Hlen|]. intros i q Hq. rewrite forallb_forall in Hall.
  specialize (Hall q ltac:(apply list_elem_of_In; eapply list_elem_of_lookup_2; exact Hq)).
  apply andb_true_iff in Hall as [Ha Hb]. apply Z.leb_le in Ha, Hb. lia.
Qed.

Lemma base_table_rowsOk st id : rowsOk (Rmmv.autotileTable (Rmmv.autotileBase st id)) = true.
Proof.
  unfold Rmmv.autotileBase.
  repeat match goal with |- context [if ?c then _ else _] => destruct c end;
    vm_compute; reflexivity.
Qed.

Lemma autotileCalls_total st id dx dy table :
  Js.index (Rmmv.autotileTable (Rmmv.autotileBase st id)) (Rmmv.getAutotileShape id)
    = Some table ->
  exists calls, Rmmv.autotileCalls st id dx dy = Some calls.
Proof.
  intros Ht. destruct (rowsOk_lookup _ _ _ (base_table_rowsOk st id) Ht) as [Hlen _].
  unfold Rmmv.autotileCalls. rewrite Ht.
  destruct table as [|q0 [|q1 [|q2 [|q3 [|]]]]]; try discriminate. simpl. eauto.
Qed.

Lemma table_quadrant_at_2820 :
  let st := Rmmv.withTileset (Rmmv.fields0 0 0 false) [] (repeat 0 2820 ++ [128]) in
  Rmmv._isTableTile st 2820 = true
  /\ Js.index Rmmv.FLOOR_AUTOTILE_TABLE (Rmmv.getAutotileShape 2820)
     = Some [(2, 4); (1, 4); (2, 3); (3, 1)]
  /\ map (fun c => Batch.o_tileHeight (Rmmv.options c))
         (Rmmv.quadrantCalls st (Rmmv.autotileBase st 2820) 0 0 3 (3, 1))
     = [Some (48 / 2)%Q; Some (48 / 2 / 2)%Q]
  /\ Rmmv.autotileCalls st 4368 0 0 = None.
Proof. vm_compute. repeat split. Qed.

(** C5, as documented, fails: the upper of the two commands of a table
    quadrant is not a half-height slice, it has the full height of the
    quadrant (24 of 48 pixels, not 12). *)
Lemma documented_table_slices_fail :
  ~ (forall st id dx dy (i : nat) q c,
       Rmmv._isTableTile st id = true ->
       (snd q = 1 \/ snd q = 5) ->
       In c (Rmmv.quadrantCalls st (Rmmv.autotileBase st id) dx dy (Z.of_nat i) q) ->
       exists h, Batch.o_tileHeight (Rmmv.options c) = Some h
                 /\ (h == Rmmv._tileHeight st / 2 / 2)%Q).
Proof.
  intros H.
  pose (st := Rmmv.withTileset (Rmmv.fields0 0 0 false) [] (repeat 0 2820 ++ [128])).
  destruct table_quadrant_at_2820 as (Ht & _ & _ & _). fold st in Ht.
  assert (Hb : Rmmv.autotileBase st 2820
               = Rmmv.mkBase Rmmv.FLOOR_AUTOTILE_TABLE 0 0 1 true 0 0).
  { destruct (table_base st 2820 Ht) as [_ ->]. reflexivity. }
  specialize (H st 2820 0%Q 0%Q 3%nat (3, 1)
                (Rmmv.mkCall 1 (0 + inject_Z 1 * (48 / 2)) (0 + inject_Z 1 * (48 / 2))
                   (Rmmv.frameOptions (inject_Z (0 * 2 + 1) * (48 / 2))
                      (inject_Z (0 * 2 + 3) * (48 / 2)) (48 / 2) (48 / 2)
                      (Some 0) (Some 0)))
                Ht (or_introl eq_refl)).
  rewrite Hb in H. destruct (H (or_introl eq_refl)) as (h & Hh & Heq).
  injection Hh as <-. discriminate Heq.
Qed.

(** C5, amended: when an A2 autotile decoded as a table tile has a quadrant
    whose vertical source coordinate qsy is 1 or 5, the quadrant gives two
    commands at slot 1: first a command of the full quadrant size (half tile
    width by half tile height) at the quadrant's place, whose horizontal
    source index is (4 - qsx) mod 4 when qsy is 1 (qsx otherwise) and whose
    vertical source row is 3; then a half-height slice of the quadrant's own
    source, laid over the lower half (a quarter tile height further down).
    Every other quadrant of an autotile whose shape has an entry in its
    table gives exactly one command of half tile width by half tile height;
    such an autotile is always drawn. *)
Theorem table_quadrant_calls st id dx dy table (i : nat) (q : Z * Z)
  (Htable : Js.index (Rmmv.autotileTable (Rmmv.autotileBase st id))
                     (Rmmv.getAutotileShape id) = Some table)
  (Hq : table !! i = Some q) :
  let b := Rmmv.autotileBase st id in
  let w1 := (Rmmv._tileWidth st / 2)%Q in
  let h1 := (Rmmv._tileHeight st / 2)%Q in
  let dx1 := (dx + inject_Z (Z.of_nat i mod 2) * w1)%Q in
  let dy1 := (dy + inject_Z (Z.of_nat i / 2) * h1)%Q in
  let sx1 := (inject_Z (Rmmv.bx b * 2 + fst q) * w1)%Q in
  let sy1 := (inject_Z (Rmmv.by_ b * 2 + snd q) * h1)%Q in
  (exists calls, Rmmv.autotileCalls st id dx dy = Some calls)
  /\ (i < 4)%nat
  /\ (Rmmv._isTableTile st id = true -> snd q = 1 \/ snd q = 5 ->
      Rmmv.isTileA2 id = true
      /\ Rmmv.bx b = Rmmv.getAutotileKind id mod 8 * 2
      /\ Rmmv.by_ b = (Rmmv.getAutotileKind id / 8 - 2) * 3
      /\ Rmmv.quadrantCalls st b dx dy (Z.of_nat i) q =
           [ Rmmv.mkCall 1 dx1 dy1
               (Rmmv.frameOptions
                  (inject_Z (Rmmv.bx b * 2
                             + (if snd q =? 1 then (4 - fst q) mod 4 else fst q)) * w1)%Q
                  (inject_Z (Rmmv.by_ b * 2 + 3) * h1)%Q
                  w1 h1 (Some 0) (Some 0));
             Rmmv.mkCall 1 dx1 (dy1 + h1 / 2)%Q
               (Rmmv.frameOptions sx1 sy1 w1 (h1 / 2)%Q (Some 0) (Some 0)) ])
  /\ (Rmmv._isTableTile st id = false \/ (snd q <> 1 /\ snd q <> 5) ->
      Rmmv.quadrantCalls st b dx dy (Z.of_nat i) q =
        [ Rmmv.mkCall (Rmmv.baseSet b) dx1 dy1
            (Rmmv.frameOptions sx1 sy1 w1 h1
               (Some (Rmmv.animX b)) (Some (Rmmv.animY b))) ]).
Proof.
  cbv zeta.
  destruct (rowsOk_lookup _ _ _ (base_table_rowsOk st id) Htable) as [Hlen Hrange].
  assert (Hi : (i < 4)%nat) by (rewrite <- Hlen; eapply lookup_lt_Some; exact Hq).
  specialize (Hrange i q Hq).
  assert (Hrem : Js.rem (Z.of_nat i) 2 = Z.of_nat i mod 2)
    by (unfold Js.rem; apply Z.rem_mod_nonneg; lia).
  split; [eapply autotileCalls_total; exact Htable|].
  split; [exact Hi|]. split.
  - intros Ht Hqsy. destruct (table_base st id Ht) as [H2 Hb].
    split; [exact H2|]. rewrite Hb.
    cbn [Rmmv.bx Rmmv.by_].
    split; [reflexivity|]. split; [reflexivity|].
    unfold Rmmv.quadrantCalls.
    cbn [Rmmv.isTable Rmmv.bx Rmmv.by_ Rmmv.baseSet Rmmv.animX Rmmv.animY].
    assert (Hsel : (snd q =? 1) || (snd q =? 5) = true)
      by (destruct Hqsy as [-> | ->]; reflexivity).
    rewrite Hsel. cbn [andb]. rewrite Hrem. unfold Js.floorDiv, Js.rem.
    rewrite (Z.rem_mod_nonneg (4 - fst q) 4) by lia. reflexivity.
  - intros Hno.
    unfold Rmmv.quadrantCalls. rewrite Hrem.
    assert (Hsel : Rmmv.isTable (Rmmv.autotileBase st id)
                   && ((snd q =? 1) || (snd q =? 5)) = false).
    { rewrite isTable_base. destruct Hno as [-> | [H1 H5]]; [reflexivity|].
      apply Z.eqb_neq in H1, H5. rewrite H1, H5. apply andb_false_r. }
    rewrite Hsel. reflexivity.
Qed.

Lemma table_quadrant_calls_witness :
  let st := Rmmv.withTileset (Rmmv.fields0 0 0 false) [] (repeat 0 2820 ++ [128]) in
  map (fun c => Batch.o_u (Rmmv.options c))
      (Rmmv.quadrantCalls st (Rmmv.autotileBase st 2820) 0 0 3 (3, 1))
  = [Some (inject_Z 1 * (48 / 2))%Q; Some (inject_Z 3 * (48 / 2))%Q].
Proof.
  intros st.
  pose proof (table_quadrant_calls st 2820 0%Q 0%Q [(2, 4); (1, 4); (2, 3); (3, 1)]
                3%nat (3, 1) eq_refl eq_refl) as H.
  destruct H as (_ & _ & H & _).
  destruct (H (proj1 table_quadrant_at_2820) (or_introl eq_refl)) as (_ & _ & _ & Hcalls).
  change (Z.of_nat 3) with 3 in Hcalls.
  rewrite Hcalls. vm_compute. reflexivity.
Defined.

(** ** Typed arrays *)

Lemma sameShape_refl {A} (bufs : list (list A)) : Mesh.sameShape bufs bufs.
Proof. intros i b H. eauto. Qed.

Lemma sameShape_trans {A} (b1 b2 b3 : list (list A)) :
  Mesh.sameShape b1 b2 -> Mesh.sameShape b2 b3 -> Mesh.sameShape b1 b3.
Proof.
  intros H12 H23 i b Hb. destruct (H12 i b Hb) as (b' & Hb' & Hl).
  destruct (H23 i b' Hb') as (b'' & Hb'' & Hl'). exists b''. split; [assumption|lia].
Qed.

Lemma sameShape_app {A} (bufs extra : list (list A)) : Mesh.sameShape bufs (bufs ++ extra).
Proof.
  intros i b Hb. exists b. split; [|reflexivity].
  rewrite lookup_app_l; [exact Hb|]. eapply lookup_lt_Some; exact Hb.
Qed.

Lemma store_sameShape {A} (a : Mesh.View) i (x : A) bufs :
  Mesh.sameShape bufs (Mesh.store a i x bufs).
Proof.
  unfold Mesh.store. destruct (i <? Mesh.len a)%nat; [|apply sameShape_refl].
  intros j b Hb. destruct (decide (Mesh.buffer a = j)) as [<-|Hne].
  - rewrite list_lookup_alter_eq, Hb. simpl. eexists. split; [reflexivity|].
    apply length_insert.
  - rewrite list_lookup_alter_ne by exact Hne. eauto.
Qed.

Lemma inRange_sameShape {A} (bufs bufs' : list (list A)) a :
  Mesh.inRange bufs a -> Mesh.sameShape bufs bufs' -> Mesh.inRange bufs' a.
Proof.
  intros (b & Hb & Hlen) Hs. destruct (Hs _ _ Hb) as (b' & Hb' & Hl).
  exists b'. split; [assumption|lia].
Qed.

Lemma load_store_eq {A} (a : Mesh.View) i (x : A) bufs :
  Mesh.inRange bufs a -> (i < Mesh.len a)%nat ->
  Mesh.load a i (Mesh.store a i x bufs) = Some x.
Proof.
  intros (b & Hb & Hlen) Hi. unfold Mesh.load, Mesh.store.
  apply Nat.ltb_lt in Hi as Hi'. rewrite Hi'.
  rewrite list_lookup_alter_eq, Hb. simpl.
  apply list_lookup_insert_eq. lia.
Qed.

Lemma load_store_ne {A} (a : Mesh.View) i j (x : A) bufs :
  i <> j -> Mesh.load a j (Mesh.store a i x bufs) = Mesh.load a j bufs.
Proof.
  intros Hne. unfold Mesh.load, Mesh.store.
  destruct (j <? Mesh.len a)%nat; [|reflexivity].
  destruct (i <? Mesh.len a)%nat; [|reflexivity].
  rewrite list_lookup_alter_eq.
  destruct (bufs !! Mesh.buffer a) as [b|]; simpl; [|reflexivity].
  apply list_lookup_insert_ne. lia.
Qed.

Lemma store_prefix (a : Mesh.View) m (x : Z) bufs (P : Z -> Prop) :
  Mesh.inRange bufs a -> (m < Mesh.len a)%nat -> P x ->
  (forall j, (j < m)%nat -> exists v, Mesh.load a j bufs = Some v /\ P v) ->
  forall j, (j < m + 1)%nat ->
    exists v, Mesh.load a j (Mesh.store a m x bufs) = Some v /\ P v.
Proof.
  intros Hr Hm Hx Hprev j Hj. destruct (decide (m = j)) as [<-|Hne].
  - exists x. split; [apply load_store_eq; assumption|exact Hx].
  - rewrite load_store_ne by exact Hne. apply Hprev. lia.
Qed.

Lemma contents_lookup {A} (a : Mesh.View) (bufs : list (list A)) j :
  Mesh.contents a bufs !! j = Mesh.load a j bufs.
Proof.
  unfold Mesh.contents, Mesh.load.
  destruct (bufs !! Mesh.buffer a) as [b|]; simpl.
  - destruct (Nat.ltb_spec j (Mesh.len a)).
    + rewrite lookup_take_lt by assumption. apply lookup_drop.
    + apply lookup_take_ge. assumption.
  - rewrite lookup_nil. destruct (j <? Mesh.len a)%nat; reflexivity.
Qed.

Lemma contents_length {A} (a : Mesh.View) (bufs : list (list A)) :
  Mesh.inRange bufs a -> length (Mesh.contents a bufs) = Mesh.len a.
Proof.
  intros (b & Hb & Hlen). unfold Mesh.contents. rewrite Hb.
  rewrite length_take, length_drop. lia.
Qed.

(** ** The index array after a build *)

Lemma toUint32_bound z hi : 0 <= z < hi -> 0 <= Js.toUint32 z < hi.
Proof.
  intros H. unfold Js.toUint32.
  pose proof (Z.mod_pos_bound z (2 ^ 32) ltac:(lia)).
  pose proof (Z.mod_le z (2 ^ 32) ltac:(lia) ltac:(lia)). lia.
Qed.

Lemma writeIndices_sameShape a i bufs : Mesh.sameShape bufs (Mesh.writeIndices a i bufs).
Proof.
  unfold Mesh.writeIndices.
  repeat (eapply sameShape_trans; [|apply store_sameShape]). apply sameShape_refl.
Qed.

Lemma writeIndices_prefix (n : nat) a i bufs :
  Mesh.len a = (n * 6)%nat -> (i < n)%nat -> Mesh.inRange bufs a ->
  (forall j, (j < i * 6)%nat ->
     exists v, Mesh.load a j bufs = Some v /\ 0 <= v < 4 * Z.of_nat n) ->
  forall j, (j < S i * 6)%nat ->
    exists v, Mesh.load a j (Mesh.writeIndices a i bufs) = Some v
              /\ 0 <= v < 4 * Z.of_nat n.
Proof.
  intros Hlen Hi Hr Hprev. unfold Mesh.writeIndices.
  set (P := fun v : Z => 0 <= v < 4 * Z.of_nat n).
  assert (HP : forall k, 0 <= k <= 3 -> P (Js.toUint32 (Z.of_nat (i * 4) + k)))
    by (intros k Hk; apply toUint32_bound; lia).
  assert (HP0 : P (Js.toUint32 (Z.of_nat (i * 4))))
    by (apply toUint32_bound; lia).
  set (b0 := bufs).
  set (b1 := Mesh.store a (i * 6 + 0) (Js.toUint32 (Z.of_nat (i * 4))) b0).
  set (b2 := Mesh.store a (i * 6 + 1) (Js.toUint32 (Z.of_nat (i * 4) + 1)) b1).
  set (b3 := Mesh.store a (i * 6 + 2) (Js.toUint32 (Z.of_nat (i * 4) + 2)) b2).
  set (b4 := Mesh.store a (i * 6 + 3) (Js.toUint32 (Z.of_nat (i * 4))) b3).
  set (b5 := Mesh.store a (i * 6 + 4) (Js.toUint32 (Z.of_nat (i * 4) + 2)) b4).
  assert (R1 : Mesh.inRange b1 a) by (eapply inRange_sameShape; [exact Hr|apply store_sameShape]).
  assert (R2 : Mesh.inRange b2 a) by (eapply inRange_sameShape; [exact R1|apply store_sameShape]).
  assert (R3 : Mesh.inRange b3 a) by (eapply inRange_sameShape; [exact R2|apply store_sameShape]).
  assert (R4 : Mesh.inRange b4 a) by (eapply inRange_sameShape; [exact R3|apply store_sameShape]).
  assert (R5 : Mesh.inRange b5 a) by (eapply inRange_sameShape; [exact R4|apply store_sameShape]).
  assert (H1 : forall j, (j < i * 6 + 1)%nat -> exists v, Mesh.load a j b1 = Some v /\ P v).
  { intros j Hj.
    apply (store_prefix a (i * 6 + 0) _ b0 P Hr ltac:(lia) HP0); [|lia].
    intros j' Hj'. apply Hprev. lia. }
  assert (H2 : forall j, (j < i * 6 + 2)%nat -> exists v, Mesh.load a j b2 = Some v /\ P v).
  { intros j Hj.
    apply (store_prefix a (i * 6 + 1) _ b1 P R1 ltac:(lia) (HP 1 ltac:(lia))); [|lia].
    intros j' Hj'. apply H1. lia. }
  assert (H3 : forall j, (j < i * 6 + 3)%nat -> exists v, Mesh.load a j b3 = Some v /\ P v).
  { intros j Hj.
    apply (store_prefix a (i * 6 + 2) _ b2 P R2 ltac:(lia) (HP 2 ltac:(lia))); [|lia].
    intros j' Hj'. apply H2. lia. }
  assert (H4 : forall j, (j < i * 6 + 4)%nat -> exists v, Mesh.load a j b4 = Some v /\ P v).
  { intros j Hj.
    apply (store_prefix a (i * 6 + 3) _ b3 P R3 ltac:(lia) HP0); [|lia].
    intros j' Hj'. apply H3. lia. }
  assert (H5 : forall j, (j < i * 6 + 5)%nat -> exists v, Mesh.load a j b5 = Some v /\ P v).
  { intros j Hj.
    apply (store_prefix a (i * 6 + 4) _ b4 P R4 ltac:(lia) (HP 2 ltac:(lia))); [|lia].
    intros j' Hj'. apply H4. lia. }
  intros j Hj.
  apply (store_prefix a (i * 6 + 5) _ b5 P R5 ltac:(lia) (HP 3 ltac:(lia))); [|lia].
  intros j' Hj'. apply H5. lia.
Qed.

Section BuildProperties.

Variable fround : Q -> Q.

Lemma writePoint_grows m g i p mem :
  Mesh.memGrows mem (Mesh.writePoint fround m g i p mem).
Proof.
  split; simpl.
  - unfold Mesh.writeUvs, Mesh.writePositions.
    repeat (eapply sameShape_trans; [|apply store_sameShape]). apply sameShape_refl.
  - apply writeIndices_sameShape.
Qed.

Lemma memGrows_refl mem : Mesh.memGrows mem mem.
Proof. split; apply sameShape_refl. Qed.

Lemma memGrows_trans m1 m2 m3 :
  Mesh.memGrows m1 m2 -> Mesh.memGrows m2 m3 -> Mesh.memGrows m1 m3.
Proof. intros [H1 H2] [H3 H4]. split; eapply sameShape_trans; eassumption. Qed.

Lemma buildLoop_grows m g pts : forall i mem,
  Mesh.memGrows mem (Mesh.buildLoop fround m g i pts mem).
Proof.
  induction pts as [|p pts IH]; intros i mem; simpl; [apply memGrows_refl|].
  eapply memGrows_trans; [apply writePoint_grows|apply IH].
Qed.

Lemma geomOk_grows mem mem' g :
  Mesh.geomOk mem g -> Mesh.memGrows mem mem' -> Mesh.geomOk mem' g.
Proof.
  intros (k & H1 & H2 & H3 & R1 & R2 & R3) [Hf Hu]. exists k.
  repeat split; try assumption; eapply inRange_sameShape; eassumption.
Qed.

(** The loop writes every index slot of the quads it visits. *)
Lemma buildLoop_indices (n : nat) m g pts : forall i mem,
  Mesh.len (Mesh.indices g) = (n * 6)%nat -> (i + length pts = n)%nat ->
  Mesh.inRange (Mesh.u32 mem) (Mesh.indices g) ->
  (forall j, (j < i * 6)%nat ->
     exists v, Mesh.load (Mesh.indices g) j (Mesh.u32 mem) = Some v
               /\ 0 <= v < 4 * Z.of_nat n) ->
  forall j, (j < n * 6)%nat ->
    exists v, Mesh.load (Mesh.indices g) j (Mesh.u32 (Mesh.buildLoop fround m g i pts mem))
              = Some v /\ 0 <= v < 4 * Z.of_nat n.
Proof.
  induction pts as [|p pts IH]; intros i mem Hlen Hn Hr Hprev; simpl in *.
  - intros j Hj. apply Hprev. lia.
  - apply IH; try assumption.
    + lia.
    + eapply inRange_sameShape; [exact Hr|apply writeIndices_sameShape].
    + apply writeIndices_prefix; try assumption. lia.
Qed.

Lemma freshGeometry_ok n mem :
  Mesh.geomOk (snd (Mesh.freshGeometry n mem)) (fst (Mesh.freshGeometry n mem))
  /\ Mesh.len (Mesh.positions (fst (Mesh.freshGeometry n mem))) = (n * 8)%nat
  /\ Mesh.memGrows mem (snd (Mesh.freshGeometry n mem)).
Proof.
  unfold Mesh.freshGeometry, Mesh.alloc. simpl. split; [|split].
  - exists n. cbn [Mesh.positions Mesh.uvs Mesh.indices Mesh.len Mesh.f32 Mesh.u32].
    split; [reflexivity|]. split; [reflexivity|]. split; [reflexivity|].
    split; [|split].
    + exists (repeat 0%Q (n * 8)). cbn [Mesh.buffer Mesh.first Mesh.len]. split.
      * rewrite <- app_assoc. apply list_lookup_middle. reflexivity.
      * rewrite repeat_length. lia.
    + exists (repeat 0%Q (n * 8)). cbn [Mesh.buffer Mesh.first Mesh.len]. split.
      * apply list_lookup_middle. reflexivity.
      * rewrite repeat_length. lia.
    + exists (repeat 0 (n * 6)). cbn [Mesh.buffer Mesh.first Mesh.len]. split.
      * apply list_lookup_middle. reflexivity.
      * rewrite repeat_length. lia.
  - reflexivity.
  - split; simpl.
    + rewrite <- app_assoc. apply sameShape_app.
    + apply sameShape_app.
Qed.

Lemma chooseGeometry_ok n geometry mem :
  (forall g0, geometry = Some g0 -> Mesh.geomOk mem g0) ->
  Mesh.geomOk (snd (Mesh.chooseGeometry n geometry mem))
              (fst (Mesh.chooseGeometry n geometry mem))
  /\ Mesh.len (Mesh.positions (fst (Mesh.chooseGeometry n geometry mem))) = (n * 8)%nat
  /\ Mesh.memGrows mem (snd (Mesh.chooseGeometry n geometry mem)).
Proof.
  intros Hg. unfold Mesh.chooseGeometry.
  destruct geometry as [g0|]; [|apply freshGeometry_ok].
  destruct (Nat.leb_spec (Mesh.len (Mesh.positions g0)) (n * 8)); [apply freshGeometry_ok|].
  destruct (Nat.leb_spec (n * 8) (Mesh.len (Mesh.positions g0))); [|lia].
  destruct (Hg g0 eq_refl) as (k & H1 & H2 & H3 & (b1 & Hb1 & L1) & (b2 & Hb2 & L2)
                               & (b3 & Hb3 & L3)).
  simpl. split; [|split].
  - exists n. simpl. repeat split; try lia.
    + exists b1. split; [exact Hb1|]. simpl. lia.
    + exists b2. split; [exact Hb2|]. simpl. lia.
    + exists b3. split; [exact Hb3|]. simpl. lia.
  - lia.
  - apply memGrows_refl.
Qed.

Lemma build_ok m geometry mem :
  (forall g0, geometry = Some g0 -> Mesh.geomOk mem g0) ->
  let n := length (Batch.pointsBuf m) in
  let r := Mesh._computeGeometriesBatched fround m geometry mem in
  Mesh.geomOk (snd r) (fst r)
  /\ Mesh.len (Mesh.positions (fst r)) = (n * 8)%nat
  /\ Mesh.memGrows mem (snd r)
  /\ (forall j, (j < n * 6)%nat ->
        exists v, Mesh.load (Mesh.indices (fst r)) j (Mesh.u32 (snd r)) = Some v
                  /\ 0 <= v < 4 * Z.of_nat n).
Proof.
  intros Hg n r. subst r. unfold Mesh._computeGeometriesBatched. fold n.
  destruct (chooseGeometry_ok n geometry mem Hg) as (Hok & Hlen & Hgrow).
  destruct (Mesh.chooseGeometry n geometry mem) as [g mem1]. simpl in *.
  pose proof (buildLoop_grows m g (Batch.pointsBuf m) 0 mem1) as Hloop.
  split; [eapply geomOk_grows; eassumption|].
  split; [exact Hlen|].
  split; [eapply memGrows_trans; eassumption|].
  destruct Hok as (k & H1 & H2 & H3 & R1 & R2 & R3).
  assert (k = n) by lia. subst k.
  apply buildLoop_indices; try assumption.
  - reflexivity.
  - intros j Hj. lia.
Qed.

Lemma pipe_geomOk mem g : Mesh.PipeGeometry fround mem g -> Mesh.geomOk mem g.
Proof.
  induction 1 as [m mem|m mem g Hp IH|mem mem' g Hp IH Hgrow].
  - apply build_ok. intros g0 [=].
  - apply build_ok. intros g0 [= <-]. exact IH.
  - eapply geomOk_grows; eassumption.
Qed.

End BuildProperties.

(** C4: for a batch buffer with n >= 1 commands, built without a previous
    geometry or from the geometry the pipe holds, the mesh has 8n positions,
    8n texture coordinates and 6n indices, and every value in the index
    array is below 4n. *)
Theorem geometry_sizes (fround : Q -> Q) (m : Batch.Tilemap)
  (geometry : option Mesh.MeshGeometry) (mem : Mesh.Memory)
  (Hn : (1 <= length (Batch.pointsBuf m))%nat)
  (Hpipe : forall g0, geometry = Some g0 -> Mesh.PipeGeometry fround mem g0) :
  let n := length (Batch.pointsBuf m) in
  let g := fst (Mesh._computeGeometriesBatched fround m geometry mem) in
  let mem' := snd (Mesh._computeGeometriesBatched fround m geometry mem) in
  Mesh.len (Mesh.positions g) = (8 * n)%nat
  /\ Mesh.len (Mesh.uvs g) = (8 * n)%nat
  /\ Mesh.len (Mesh.indices g) = (6 * n)%nat
  /\ length (Mesh.contents (Mesh.positions g) (Mesh.f32 mem')) = (8 * n)%nat
  /\ length (Mesh.contents (Mesh.uvs g) (Mesh.f32 mem')) = (8 * n)%nat
  /\ length (Mesh.contents (Mesh.indices g) (Mesh.u32 mem')) = (6 * n)%nat
  /\ Forall (fun v => 0 <= v < 4 * Z.of_nat n)
            (Mesh.contents (Mesh.indices g) (Mesh.u32 mem')).
Proof.
  intros n g mem'.
  assert (Hg : forall g0, geometry = Some g0 -> Mesh.geomOk mem g0)
    by (intros g0 H0; eapply pipe_geomOk; eauto).
  destruct (build_ok fround m geometry mem Hg) as (Hok & Hlen & _ & Hidx).
  fold n g mem' in Hok, Hlen, Hidx.
  destruct Hok as (k & H1 & H2 & H3 & R1 & R2 & R3).
  assert (k = n) by lia. subst k.
  rewrite !contents_length by assumption.
  repeat split; try lia.
  apply Forall_lookup. intros j v Hj. rewrite contents_lookup in Hj.
  assert (Hlt : (j < n * 6)%nat).
  { unfold Mesh.load in Hj. destruct (Nat.ltb_spec j (Mesh.len (Mesh.indices g)));
      [lia|discriminate]. }
  destruct (Hidx j Hlt) as (v' & Hv' & Hb). congruence.
Qed.

Lemma geometry_sizes_witness :
  let m1 := Batch.tile (Batch.new Composite.shadowTexture) None 0 0 Batch.noOptions in
  let m2 := Batch.tile m1 None 0 0 Batch.noOptions in
  let first := Mesh._computeGeometriesBatched (fun q => q) m2 None (Mesh.mkMemory [] []) in
  let second := Mesh._computeGeometriesBatched (fun q => q) m1 (Some (fst first)) (snd first) in
  Mesh.len (Mesh.positions (fst second)) = 8%nat
  /\ Mesh.contents (Mesh.indices (fst second)) (Mesh.u32 (snd second)) = [0; 1; 2; 0; 2; 3].
Proof.
  intros m1 m2 first second. split; [|reflexivity].
  refine (proj1 (geometry_sizes (fun q => q) m1 (Some (fst first)) (snd first) _ _)).
  - simpl. lia.
  - intros g0 [= <-]. apply Mesh.pipe_init.
Defined.

(** ** Reuse of the backing arrays *)

Lemma rebuild_reuses fround m g0 mem :
  (length (Batch.pointsBuf m) * 8 < Mesh.len (Mesh.positions g0))%nat ->
  let r := Mesh._computeGeometriesBatched fround m (Some g0) mem in
  Mesh.buffer (Mesh.positions (fst r)) = Mesh.buffer (Mesh.positions g0)
  /\ Mesh.buffer (Mesh.uvs (fst r)) = Mesh.buffer (Mesh.uvs g0)
  /\ Mesh.buffer (Mesh.indices (fst r)) = Mesh.buffer (Mesh.indices g0).
Proof.
  intros Hlt. unfold Mesh._computeGeometriesBatched, Mesh.chooseGeometry.
  destruct (Nat.leb_spec (Mesh.len (Mesh.positions g0)) (length (Batch.pointsBuf m) * 8));
    [lia|].
  destruct (Nat.leb_spec (length (Batch.pointsBuf m) * 8) (Mesh.len (Mesh.positions g0)));
    [|lia].
  repeat split.
Qed.

Lemma rebuild_allocates fround m g0 mem :
  (Mesh.len (Mesh.positions g0) <= length (Batch.pointsBuf m) * 8)%nat ->
  let r := Mesh._computeGeometriesBatched fround m (Some g0) mem in
  Mesh.buffer (Mesh.positions (fst r)) = length (Mesh.f32 mem)
  /\ Mesh.buffer (Mesh.uvs (fst r)) = S (length (Mesh.f32 mem))
  /\ Mesh.buffer (Mesh.indices (fst r)) = length (Mesh.u32 mem).
Proof.
  intros Hle. unfold Mesh._computeGeometriesBatched, Mesh.chooseGeometry.
  destruct (Nat.leb_spec (Mesh.len (Mesh.positions g0)) (length (Batch.pointsBuf m) * 8));
    [|lia].
  unfold Mesh.freshGeometry, Mesh.alloc. simpl.
  rewrite length_app. simpl. repeat split. lia.
Qed.

(** C8 at the same command count: a buffer of one command is rebuilt from
    the geometry made for it the frame before.  The three arrays of that
    geometry have exactly the sizes needed (8, 8 and 6), yet none of them is
    reused: the rebuild allocates three new buffers. *)
Theorem rebuild_same_count_allocates :
  let m1 := Batch.tile (Batch.new Composite.shadowTexture) None 0 0 Batch.noOptions in
  let first := Mesh._computeGeometriesBatched (fun q => q) m1 None (Mesh.mkMemory [] []) in
  let second := Mesh._computeGeometriesBatched (fun q => q) m1 (Some (fst first)) (snd first) in
  Mesh.len (Mesh.positions (fst first)) = (length (Batch.pointsBuf m1) * 8)%nat
  /\ Mesh.len (Mesh.indices (fst first)) = (length (Batch.pointsBuf m1) * 6)%nat
  /\ Mesh.buffer (Mesh.positions (fst first)) = 0%nat
  /\ Mesh.buffer (Mesh.positions (fst second)) = 2%nat
  /\ Mesh.buffer (Mesh.uvs (fst first)) = 1%nat
  /\ Mesh.buffer (Mesh.uvs (fst second)) = 3%nat
  /\ Mesh.buffer (Mesh.indices (fst first)) = 0%nat
  /\ Mesh.buffer (Mesh.indices (fst second)) = 1%nat
  /\ length (Mesh.f32 (snd first)) = 2%nat
  /\ length (Mesh.f32 (snd second)) = 4%nat.
Proof. repeat split. Qed.

(** ** What painting leaves alone *)



Section Frame.

Context {B : Type} (g : Composite.CompositeTilemap -> B).
Hypothesis Htile : forall c r x y o c', Composite.tile c r x y o = Some c' -> g c' = g c.
Hypothesis Hclear : forall c, g (Composite.clear c) = g c.












End Frame.




(** ** Layer positions *)












(** ** Repainting twice *)




Lemma animation_offsets_witness :
  Rmmv.animationFrame sampleTicked
  = Clock.value (Clock.updateDelta (Rmmv.animationCount sampleRenderer) (7 # 10)).
Proof.
  refine (proj1 (animation_offsets sampleRenderer 0 (7 # 10) sampleTicked _ _ _)).
  - exact clockInv_start.
  - discriminate.
  - vm_compute. reflexivity.
Defined.

(** ** The display order *)


















(** * Further properties of the code *)

(** ** Autotile ids *)

(** X1: an autotile id made from a kind (>= 0) and a shape (0..47) is an
    autotile id and gives back that kind and that shape. *)
Theorem autotile_id_roundtrip (kind shape : Z)
  (Hkind : 0 <= kind) (Hshape : 0 <= shape < 48) :
  Rmmv.isAutotile (Rmmv.makeAutotileId kind shape) = true
  /\ Rmmv.getAutotileKind (Rmmv.makeAutotileId kind shape) = kind
  /\ Rmmv.getAutotileShape (Rmmv.makeAutotileId kind shape) = shape.
Proof.
  unfold Rmmv.isAutotile, Rmmv.getAutotileKind, Rmmv.getAutotileShape,
    Rmmv.makeAutotileId, Rmmv.TILE_ID_A1, Js.floorDiv, Js.rem.
  replace (2048 + kind * 48 + shape - 2048) with (shape + kind * 48) by lia.
  split; [apply Z.leb_le; lia|]. split.
  - rewrite Z.div_add by lia. rewrite Z.div_small by lia. lia.
  - rewrite Z.rem_mod_nonneg by lia. rewrite Z.mod_add by lia. apply Z.mod_small. lia.
Qed.

Lemma autotile_id_roundtrip_witness :
  Rmmv.getAutotileKind (Rmmv.makeAutotileId 17 46) = 17
  /\ Rmmv.getAutotileShape (Rmmv.makeAutotileId 17 46) = 46.
Proof. exact (proj2 (autotile_id_roundtrip 17 46 ltac:(lia) ltac:(lia))). Defined.

Lemma autotile_shape_range (tileId : Z) :
  Rmmv.isAutotile tileId = true ->
  0 <= Rmmv.getAutotileKind tileId /\ 0 <= Rmmv.getAutotileShape tileId < 48.
Proof.
  intros Hauto. unfold Rmmv.isAutotile in Hauto. apply Z.leb_le in Hauto.
  unfold Rmmv.getAutotileKind, Rmmv.getAutotileShape, Rmmv.TILE_ID_A1,
    Js.floorDiv, Js.rem in *.
  rewrite Z.rem_mod_nonneg by lia.
  pose proof (Z.mod_pos_bound (tileId - 2048) 48 ltac:(lia)).
  pose proof (Z.div_pos (tileId - 2048) 48 ltac:(lia) ltac:(lia)).
  lia.
Qed.

(** X2: every autotile id is the id made from its own kind and shape, and
    its shape lies between 0 and 47. *)
Theorem autotile_id_decode_encode (tileId : Z)
  (Hauto : Rmmv.isAutotile tileId = true) :
  Rmmv.makeAutotileId (Rmmv.getAutotileKind tileId) (Rmmv.getAutotileShape tileId) = tileId
  /\ 0 <= Rmmv.getAutotileKind tileId
  /\ 0 <= Rmmv.getAutotileShape tileId < 48.
Proof.
  unfold Rmmv.isAutotile in Hauto. apply Z.leb_le in Hauto.
  unfold Rmmv.getAutotileKind, Rmmv.getAutotileShape, Rmmv.makeAutotileId,
    Rmmv.TILE_ID_A1, Js.floorDiv, Js.rem in *.
  rewrite Z.rem_mod_nonneg by lia.
  pose proof (Z.div_mod (tileId - 2048) 48 ltac:(lia)).
  pose proof (Z.mod_pos_bound (tileId - 2048) 48 ltac:(lia)).
  pose proof (Z.div_pos (tileId - 2048) 48 ltac:(lia) ltac:(lia)).
  lia.
Qed.

Lemma autotile_id_decode_encode_witness :
  Rmmv.makeAutotileId (Rmmv.getAutotileKind 2910) (Rmmv.getAutotileShape 2910) = 2910.
Proof. exact (proj1 (autotile_id_decode_encode 2910 eq_refl)). Defined.

Lemma kind_bounds (tileId lo hi : Z) :
  2048 + 48 * lo <= tileId < 2048 + 48 * hi ->
  lo <= Rmmv.getAutotileKind tileId < hi.
Proof.
  intros H. unfold Rmmv.getAutotileKind, Rmmv.TILE_ID_A1, Js.floorDiv.
  Z.to_euclidean_division_equations. lia.
Qed.

(** X3: [isSameKindTile] is an equivalence on tile ids: two autotiles are of
    the same kind when their kinds agree, any other two ids only when they
    are equal. *)
Theorem isSameKindTile_equivalence (a b c : Z) :
  Rmmv.isSameKindTile a a = true
  /\ Rmmv.isSameKindTile a b = Rmmv.isSameKindTile b a
  /\ (Rmmv.isSameKindTile a b = true -> Rmmv.isSameKindTile b c = true ->
      Rmmv.isSameKindTile a c = true).
Proof.
  unfold Rmmv.isSameKindTile, Rmmv.isAutotile, Rmmv.TILE_ID_A1.
  split; [|split].
  - destruct (_ && _); apply Z.eqb_refl.
  - rewrite (andb_comm (2048 <=? a)).
    destruct (_ && _); apply Z.eqb_sym.
  - destruct (Z.leb_spec 2048 a), (Z.leb_spec 2048 b), (Z.leb_spec 2048 c); simpl;
      rewrite ?Z.eqb_eq; intros; subst; try reflexivity; try congruence; lia.
Qed.

(** ** Reading the map *)

Lemma numberMod_is_mod (v n : Z) : 0 < n -> Rmmv.numberMod v n = v mod n.
Proof.
  intros Hn. unfold Rmmv.numberMod, Js.rem.
  pose proof (Z.rem_bound_abs v n ltac:(lia)) as Hb.
  assert (Hr : -n < Z.rem v n < n) by lia.
  rewrite Z.rem_mod_nonneg by lia.
  rewrite Z.add_mod by lia. rewrite Z.mod_same by lia.
  rewrite Z.add_0_r, Z.mod_mod by lia.
  pose proof (Z.quot_rem' v n) as Hq.
  replace (Z.rem v n) with (v + (- (v ÷ n)) * n) by lia.
  apply Z.mod_add. lia.
Qed.

(** X4: for a positive divisor, [numberMod] is the mathematical modulo: the
    result lies in [0, n) and differs from the argument by a multiple of
    [n], also for negative arguments. *)
Theorem numberMod_modulo (v n : Z) (Hn : 0 < n) :
  Rmmv.numberMod v n = v mod n /\ 0 <= Rmmv.numberMod v n < n.
Proof.
  split; [apply numberMod_is_mod; exact Hn|].
  rewrite numberMod_is_mod by exact Hn. apply Z.mod_pos_bound. exact Hn.
Qed.

Lemma numberMod_modulo_witness : Rmmv.numberMod (-1) 5 = (-1) mod 5.
Proof. exact (proj1 (numberMod_modulo (-1) 5 ltac:(lia))). Defined.

(** X5: with horizontal wrap and a map of positive width, reading a column
    is reading that column modulo the width: columns that differ by a
    multiple of the width read the same cell (column -1 is column width-1,
    column width is column 0). *)
Theorem readMapData_wraps_columns st (x y z k : Z)
  (Hwrap : Rmmv.horizontalWrap st = true) (Hwidth : 0 < Rmmv._mapWidth st) :
  Rmmv._readMapData st x y z = Rmmv._readMapData st (x mod Rmmv._mapWidth st) y z
  /\ Rmmv._readMapData st (x + k * Rmmv._mapWidth st) y z = Rmmv._readMapData st x y z.
Proof.
  assert (Hmod : forall x', Rmmv._readMapData st x' y z
                            = Rmmv._readMapData st (x' mod Rmmv._mapWidth st) y z).
  { intros x'. unfold Rmmv._readMapData. destruct (Rmmv._mapData st); [|reflexivity].
    rewrite Hwrap.
    rewrite !(numberMod_is_mod _ _ Hwidth), Z.mod_mod by lia. reflexivity. }
  split; [apply Hmod|].
  rewrite (Hmod (x + _)), (Hmod x). rewrite Z.mod_add by lia. reflexivity.
Qed.

Lemma readMapData_wraps_columns_witness :
  let st := Rmmv.setData
              (Rmmv.mkShader 20 48 48 0 0 None [] (0, 0)%Q [] Clock.animationCount0
                 true false 0 0 0 false (-1) None None [] [] 0%nat false (0, 0)%Q [] [])
              5 1 [10; 11; 12; 13; 14] in
  Rmmv._readMapData st (-1) 0 0 = Rmmv._readMapData st ((-1) mod 5) 0 0.
Proof.
  intros st. exact (proj1 (readMapData_wraps_columns st (-1) 0 0 0 eq_refl eq_refl)).
Defined.

(** X6: a read outside the map is tile id 0, never an error: without map
    data, and, when the axis does not wrap, for a column or a row outside
    the map. *)
Theorem readMapData_outside st (x y z : Z) :
  (Rmmv._mapData st = None -> Rmmv._readMapData st x y z = 0)
  /\ (Rmmv.horizontalWrap st = false -> x < 0 \/ Rmmv._mapWidth st <= x ->
      Rmmv._readMapData st x y z = 0)
  /\ (Rmmv.verticalWrap st = false -> y < 0 \/ Rmmv._mapHeight st <= y ->
      Rmmv._readMapData st x y z = 0).
Proof.
  unfold Rmmv._readMapData. split; [|split].
  - intros ->. reflexivity.
  - intros -> Hx. destruct (Rmmv._mapData st); [|reflexivity].
    destruct (Z.leb_spec 0 x), (Z.ltb_spec x (Rmmv._mapWidth st)); simpl;
      try reflexivity; lia.
  - intros -> Hy. destruct (Rmmv._mapData st); [|reflexivity].
    destruct (Z.leb_spec 0 y), (Z.ltb_spec y (Rmmv._mapHeight st)); simpl;
      rewrite ?andb_false_r; try reflexivity; lia.
Qed.

Lemma readMapData_outside_witness :
  Rmmv._readMapData (Rmmv.setData sampleRenderer 2 2 [1; 2; 3; 4]) 2 0 0 = 0.
Proof.
  refine (proj1 (proj2 (readMapData_outside
            (Rmmv.setData sampleRenderer 2 2 [1; 2; 3; 4]) 2 0 0)) eq_refl _).
  right. simpl. lia.
Defined.

(** ** Plain tiles *)

(** X7: a plain (non-autotile) tile id >= 0 reads one cell of a sheet of 16
    columns by 16 rows, and within its block of 256 ids the cell determines
    the id: id mod 256 = (col / 8) * 128 + row * 8 + col mod 8. *)
Theorem normal_tile_source_cell st (tileId : Z) (dx dy : Q) (Hid : 0 <= tileId) :
  exists col row,
    0 <= col < 16 /\ 0 <= row < 16
    /\ Batch.o_u (Rmmv.options (Rmmv.normalTileCall st tileId dx dy))
       = Some (inject_Z col * Rmmv._tileWidth st)%Q
    /\ Batch.o_v (Rmmv.options (Rmmv.normalTileCall st tileId dx dy))
       = Some (inject_Z row * Rmmv._tileHeight st)%Q
    /\ Batch.o_tileWidth (Rmmv.options (Rmmv.normalTileCall st tileId dx dy))
       = Some (Rmmv._tileWidth st)
    /\ Batch.o_tileHeight (Rmmv.options (Rmmv.normalTileCall st tileId dx dy))
       = Some (Rmmv._tileHeight st)
    /\ tileId mod 256 = col / 8 * 128 + row * 8 + col mod 8.
Proof.
  exists (Js.rem (Js.floorDiv tileId 128) 2 * 8 + Js.rem tileId 8),
         (Js.rem (Js.floorDiv (Js.rem tileId 256) 8) 16).
  assert (Harith :
    0 <= Js.rem (Js.floorDiv tileId 128) 2 * 8 + Js.rem tileId 8 < 16
    /\ 0 <= Js.rem (Js.floorDiv (Js.rem tileId 256) 8) 16 < 16
    /\ tileId mod 256
       = (Js.rem (Js.floorDiv tileId 128) 2 * 8 + Js.rem tileId 8) / 8 * 128
         + Js.rem (Js.floorDiv (Js.rem tileId 256) 8) 16 * 8
         + (Js.rem (Js.floorDiv tileId 128) 2 * 8 + Js.rem tileId 8) mod 8).
  { unfold Js.rem, Js.floorDiv.
    assert (H128 : 0 <= tileId / 128) by (apply Z.div_pos; lia).
    rewrite (Z.rem_mod_nonneg tileId 256) by lia.
    assert (H8 : 0 <= tileId mod 256 / 8)
      by (apply Z.div_pos; [apply Z.mod_pos_bound|]; lia).
    rewrite !Z.rem_mod_nonneg by lia.
    repeat split; Z.to_euclidean_division_equations; lia. }
  destruct Harith as (Hc & Hr & Heq).
  split; [exact Hc|]. split; [exact Hr|].
  repeat (split; [reflexivity|]). exact Heq.
Qed.

Lemma normal_tile_source_cell_witness :
  exists col row,
    0 <= col < 16 /\ 0 <= row < 16
    /\ 137 mod 256 = col / 8 * 128 + row * 8 + col mod 8.
Proof.
  destruct (normal_tile_source_cell sampleRenderer 137 0 0 ltac:(lia))
    as (col & row & Hc & Hr & _ & _ & _ & _ & Heq).
  exists col, row. repeat split; try apply Hc; try apply Hr; exact Heq.
Defined.

(** ** Autotile types and tables *)

Lemma a1_kinds tileId : Rmmv.isTileA1 tileId = true -> 0 <= Rmmv.getAutotileKind tileId < 16.
Proof.
  intros H. apply kind_bounds. revert H. band_unfold. cmp_cases; simpl; intros;
    try discriminate; lia.
Qed.

Lemma a2_kinds tileId : Rmmv.isTileA2 tileId = true -> 16 <= Rmmv.getAutotileKind tileId < 48.
Proof.
  intros H. apply kind_bounds. revert H. band_unfold. cmp_cases; simpl; intros;
    try discriminate; lia.
Qed.

Lemma a3_kinds tileId : Rmmv.isTileA3 tileId = true -> 48 <= Rmmv.getAutotileKind tileId < 80.
Proof.
  intros H. apply kind_bounds. revert H. band_unfold. cmp_cases; simpl; intros;
    try discriminate; lia.
Qed.

Lemma a4_kinds tileId : Rmmv.isTileA4 tileId = true -> 80 <= Rmmv.getAutotileKind tileId < 128.
Proof.
  intros H. apply kind_bounds. revert H. band_unfold. cmp_cases; simpl; intros;
    try discriminate; lia.
Qed.

Lemma autotile_band tileId :
  Rmmv.isVisibleTile tileId = true -> Rmmv.isAutotile tileId = true ->
  (Rmmv.isTileA1 tileId = true /\ Rmmv.isTileA2 tileId = false
   /\ Rmmv.isTileA3 tileId = false /\ Rmmv.isTileA4 tileId = false)
  \/ (Rmmv.isTileA1 tileId = false /\ Rmmv.isTileA2 tileId = true
      /\ Rmmv.isTileA3 tileId = false /\ Rmmv.isTileA4 tileId = false)
  \/ (Rmmv.isTileA1 tileId = false /\ Rmmv.isTileA2 tileId = false
      /\ Rmmv.isTileA3 tileId = true /\ Rmmv.isTileA4 tileId = false)
  \/ (Rmmv.isTileA1 tileId = false /\ Rmmv.isTileA2 tileId = false
      /\ Rmmv.isTileA3 tileId = false /\ Rmmv.isTileA4 tileId = true).
Proof.
  band_unfold. intros Hv Ha.
  apply andb_true_iff in Hv as [Hv1 Hv2]. apply Z.ltb_lt in Hv1, Hv2. apply Z.leb_le in Ha.
  assert (Hcase : tileId < 2816 \/ 2816 <= tileId < 4352 \/ 4352 <= tileId < 5888
                  \/ 5888 <= tileId) by lia.
  destruct Hcase as [H|[H|[H|H]]]; [left|right; left|right; right; left|right; right; right];
    cmp_settle; repeat split.
Qed.

Lemma waterfall_needs_a1 tileId :
  Rmmv.isTileA1 tileId = false -> Rmmv.isWaterfallTile tileId = false.
Proof.
  unfold Rmmv.isWaterfallTile. band_unfold.
  cmp_cases; simpl; intros; try reflexivity; try discriminate; lia.
Qed.

Lemma autotile_type_and_table st (tileId : Z)
  (Hvis : Rmmv.isVisibleTile tileId = true) (Hauto : Rmmv.isAutotile tileId = true) :
  Classify.holding [Rmmv.isFloorTypeAutotile tileId; Rmmv.isWallTypeAutotile tileId;
                    Rmmv.isWaterfallTypeAutotile tileId] = 1%nat
  /\ Rmmv.autotileTable (Rmmv.autotileBase st tileId) =
       if Rmmv.isFloorTypeAutotile tileId then Rmmv.FLOOR_AUTOTILE_TABLE
       else if Rmmv.isWallTypeAutotile tileId then Rmmv.WALL_AUTOTILE_TABLE
       else Rmmv.WATERFALL_AUTOTILE_TABLE.
Proof.
  unfold Rmmv.isFloorTypeAutotile, Rmmv.isWallTypeAutotile, Rmmv.isWaterfallTypeAutotile,
    Rmmv.isRoofTile, Rmmv.isWallTopTile, Rmmv.isWallSideTile, Rmmv.autotileBase.
  destruct (autotile_band tileId Hvis Hauto)
    as [(H1 & H2 & H3 & H4)|[(H1 & H2 & H3 & H4)|[(H1 & H2 & H3 & H4)|(H1 & H2 & H3 & H4)]]];
    rewrite H1, H2, H3, H4; cbn [andb orb negb].
  - pose proof (a1_kinds _ H1) as Hk.
    assert (Hfall : Rmmv.isWaterfallTile tileId
                    = (4 <=? Rmmv.getAutotileKind tileId)
                      && (Js.rem (Rmmv.getAutotileKind tileId) 2 =? 1)).
    { unfold Rmmv.isWaterfallTile. revert H1 Hk.
      unfold Rmmv.getAutotileKind. band_unfold. unfold Js.rem.
      cmp_cases; simpl; intros; try reflexivity; try discriminate;
        exfalso; Z.to_euclidean_division_equations; lia. }
    rewrite Hfall. unfold Js.rem in *.
    rewrite orb_false_r.
    destruct (Z.eqb_spec (Rmmv.getAutotileKind tileId) 0) as [->|].
    { split; reflexivity. }
    destruct (Z.eqb_spec (Rmmv.getAutotileKind tileId) 1) as [->|].
    { split; reflexivity. }
    destruct (Z.eqb_spec (Rmmv.getAutotileKind tileId) 2) as [->|].
    { split; reflexivity. }
    destruct (Z.eqb_spec (Rmmv.getAutotileKind tileId) 3) as [->|].
    { split; reflexivity. }
    replace (4 <=? Rmmv.getAutotileKind tileId) with true
      by (symmetry; apply Z.leb_le; lia).
    cbn [andb].
    destruct (Z.eqb_spec (Z.rem (Rmmv.getAutotileKind tileId) 2) 0) as [E0|E0];
      destruct (Z.eqb_spec (Z.rem (Rmmv.getAutotileKind tileId) 2) 1) as [E1|E1];
      simpl; try (split; reflexivity); exfalso;
      rewrite Z.rem_mod_nonneg in * by lia;
      pose proof (Z.mod_pos_bound (Rmmv.getAutotileKind tileId) 2 ltac:(lia)); lia.
  - rewrite (waterfall_needs_a1 _ H1). split; reflexivity.
  - rewrite (waterfall_needs_a1 _ H1).
    pose proof (a3_kinds _ H3) as Hk. unfold Js.rem.
    rewrite Z.rem_mod_nonneg by lia.
    clear Hvis Hauto H1 H2 H3 H4 Hk.
    destruct (Z.ltb_spec (Rmmv.getAutotileKind tileId mod 16) 8),
             (Z.leb_spec 8 (Rmmv.getAutotileKind tileId mod 16));
      simpl; try (split; reflexivity); exfalso; lia.
  - pose proof (a4_kinds _ H4) as Hk. unfold Js.rem, Js.floorDiv.
    assert (Hty : 0 <= Rmmv.getAutotileKind tileId / 8)
      by (Z.to_euclidean_division_equations; lia).
    rewrite !Z.rem_mod_nonneg by lia.
    assert (Hodd : (Rmmv.getAutotileKind tileId / 8 mod 2 =? 1)
                   = (8 <=? Rmmv.getAutotileKind tileId mod 16)).
    { destruct (Z.eqb_spec (Rmmv.getAutotileKind tileId / 8 mod 2) 1),
               (Z.leb_spec 8 (Rmmv.getAutotileKind tileId mod 16));
        try reflexivity; exfalso; Z.to_euclidean_division_equations; lia. }
    rewrite Hodd, (waterfall_needs_a1 _ H1).
    clear Hvis Hauto H1 H2 H3 H4 Hk Hty Hodd.
    destruct (Z.ltb_spec (Rmmv.getAutotileKind tileId mod 16) 8),
             (Z.leb_spec 8 (Rmmv.getAutotileKind tileId mod 16));
      simpl; try (split; reflexivity); exfalso; lia.
Qed.

(** X8: every visible autotile is of exactly one of the three types floor,
    wall and waterfall, and the decoder reads its quadrants from the table
    of that type. *)
Theorem autotile_table_by_type st (tileId : Z)
  (Hvis : Rmmv.isVisibleTile tileId = true) (Hauto : Rmmv.isAutotile tileId = true) :
  Classify.holding [Rmmv.isFloorTypeAutotile tileId; Rmmv.isWallTypeAutotile tileId;
                    Rmmv.isWaterfallTypeAutotile tileId] = 1%nat
  /\ Rmmv.autotileTable (Rmmv.autotileBase st tileId) =
       if Rmmv.isFloorTypeAutotile tileId then Rmmv.FLOOR_AUTOTILE_TABLE
       else if Rmmv.isWallTypeAutotile tileId then Rmmv.WALL_AUTOTILE_TABLE
       else Rmmv.WATERFALL_AUTOTILE_TABLE.
Proof. exact (autotile_type_and_table st tileId Hvis Hauto). Qed.

Lemma autotile_table_by_type_witness :
  Rmmv.autotileTable (Rmmv.autotileBase sampleRenderer 4368) = Rmmv.WALL_AUTOTILE_TABLE.
Proof.
  exact (proj2 (autotile_table_by_type sampleRenderer 4368 eq_refl eq_refl)).
Defined.

Lemma index_is_Some {A} (l : list A) (i : Z) :
  is_Some (Js.index l i) <-> 0 <= i < Z.of_nat (length l).
Proof.
  unfold Js.index. destruct (Z.leb_spec 0 i).
  - rewrite lookup_lt_is_Some. lia.
  - split; [intros [x Hx]; discriminate|lia].
Qed.

(** X9: a visible autotile is decoded into draw calls exactly when its shape
    has an entry in the table of its type: always for a floor-type autotile
    (48 shapes), only for shapes below 16 for a wall-type one and below 4
    for a waterfall; for the other ids [_drawAutotile] throws before it
    makes any call. *)
Theorem autotile_decodes_iff st (tileId : Z) (dx dy : Q)
  (Hvis : Rmmv.isVisibleTile tileId = true) (Hauto : Rmmv.isAutotile tileId = true) :
  is_Some (Rmmv.autotileCalls st tileId dx dy)
  <-> Rmmv.getAutotileShape tileId <
        (if Rmmv.isFloorTypeAutotile tileId then 48
         else if Rmmv.isWallTypeAutotile tileId then 16 else 4).
Proof.
  destruct (autotile_shape_range tileId Hauto) as (_ & Hshape).
  destruct (autotile_type_and_table st tileId Hvis Hauto) as [_ Htab].
  assert (Hlen : Z.of_nat (length (Rmmv.autotileTable (Rmmv.autotileBase st tileId)))
                 = if Rmmv.isFloorTypeAutotile tileId then 48
                   else if Rmmv.isWallTypeAutotile tileId then 16 else 4).
  { rewrite Htab. destruct (Rmmv.isFloorTypeAutotile tileId); [reflexivity|].
    destruct (Rmmv.isWallTypeAutotile tileId); reflexivity. }
  rewrite <- Hlen. split.
  - intros [calls Hcalls].
    destruct (autotileCalls_inv _ _ _ _ _ Hcalls) as (t & _ & _ & _ & _ & Ht & _).
    apply (proj1 (index_is_Some _ _)). rewrite Ht. eauto.
  - intros Hlt.
    destruct (proj2 (index_is_Some (Rmmv.autotileTable (Rmmv.autotileBase st tileId))
                       (Rmmv.getAutotileShape tileId)) ltac:(lia)) as [t Ht].
    destruct (autotileCalls_total st tileId dx dy t Ht) as [calls Hc].
    rewrite Hc. eauto.
Qed.

Lemma autotile_decodes_iff_witness :
  is_Some (Rmmv.autotileCalls sampleRenderer 4368 0 0) <-> 16 < 16.
Proof. exact (autotile_decodes_iff sampleRenderer 4368 0 0 eq_refl eq_refl). Defined.

(** ** Shadows and table edges *)

Lemma land_bit (a i : Z) :
  0 <= i -> (Z.land a (Z.shiftl 1 i) =? 0) = negb (Z.testbit a i).
Proof.
  intros Hi. rewrite Z.shiftl_1_l.
  destruct (Z.testbit a i) eqn:Hb; simpl.
  - apply Z.eqb_neq. intros H0.
    assert (Hc : Z.testbit (Z.land a (2 ^ i)) i = true)
      by (rewrite Z.land_spec, Hb, Z.pow2_bits_true by lia; reflexivity).
    rewrite H0, Z.bits_0 in Hc. discriminate.
  - apply Z.eqb_eq. apply Z.bits_inj'. intros n Hn.
    rewrite Z.land_spec, Z.bits_0, Z.pow2_bits_eqb by lia.
    destruct (Z.eqb_spec i n) as [->|]; [rewrite Hb|]; simpl;
      rewrite ?andb_false_r; reflexivity.
Qed.

Lemma land_15_zero (a : Z) :
  Z.land a 15 = 0 ->
  Z.testbit a 0 = false /\ Z.testbit a 1 = false
  /\ Z.testbit a 2 = false /\ Z.testbit a 3 = false.
Proof.
  intros H.
  assert (Hb : forall i, 0 <= i < 4 -> Z.testbit a i = false).
  { intros i Hi.
    assert (H15 : Z.testbit 15 i = true).
    { assert (Hc : i = 0 \/ i = 1 \/ i = 2 \/ i = 3) by lia.
      destruct Hc as [->|[->|[->| ->]]]; reflexivity. }
    pose proof (Z.land_spec a 15 i) as Hl.
    rewrite H, Z.bits_0, H15, andb_true_r in Hl. congruence. }
  repeat split; apply Hb; lia.
Qed.

Lemma shadowCount_bits (a : Z) :
  shadowCount a =
    ((if Z.testbit a 0 then 1 else 0) + (if Z.testbit a 1 then 1 else 0)
     + (if Z.testbit a 2 then 1 else 0) + (if Z.testbit a 3 then 1 else 0))%nat.
Proof.
  unfold shadowCount. cbn [List.filter].
  destruct (Z.testbit a 0), (Z.testbit a 1), (Z.testbit a 2), (Z.testbit a 3);
    reflexivity.
Qed.

(** X10: [_drawShadow] makes one call per set bit among the low four bits of
    the shadow mask, each to the shadow slot -1 and of half a tile in each
    direction; bits above the fourth are ignored. *)
Theorem shadow_calls_count st (shadowBits : Z) (dx dy : Q) :
  length (Rmmv.shadowCalls st shadowBits dx dy) = shadowCount shadowBits
  /\ Forall (fun c => Rmmv.setNumber c = -1
                      /\ Rmmv.options c
                         = Rmmv.sizeOptions (Rmmv._tileWidth st / 2)
                                            (Rmmv._tileHeight st / 2))
            (Rmmv.shadowCalls st shadowBits dx dy).
Proof.
  rewrite shadowCount_bits. unfold Rmmv.shadowCalls.
  destruct (Z.eqb_spec (Z.land shadowBits 15) 0) as [H0|_].
  - destruct (land_15_zero _ H0) as (-> & -> & -> & ->). split; [reflexivity|constructor].
  - cbn [flat_map]. rewrite !land_bit by lia.
    destruct (Z.testbit shadowBits 0), (Z.testbit shadowBits 1),
             (Z.testbit shadowBits 2), (Z.testbit shadowBits 3);
      cbn [negb app length Nat.add]; split; try reflexivity; repeat constructor.
Qed.

Lemma shadow_calls_count_witness :
  length (Rmmv.shadowCalls sampleRenderer 19 0 0) = 2%nat.
Proof. exact (proj1 (shadow_calls_count sampleRenderer 19 0 0)). Defined.



(** ** Buffers of a composite layer *)

Lemma findSource_Some s cs : forall k i,
  Composite.findSource s k cs = Some i ->
  (k <= i)%nat
  /\ (exists b, cs !! (i - k)%nat = Some b /\ Batch.source (Batch.baseTexture b) = s)
  /\ (forall j b, (j < i - k)%nat -> cs !! j = Some b ->
        Batch.source (Batch.baseTexture b) <> s).
Proof.
  induction cs as [|c cs IH]; intros k i H; simpl in H; [discriminate|].
  destruct (Nat.eqb_spec (Batch.source (Batch.baseTexture c)) s) as [Heq|Hne].
  - injection H as <-. split; [lia|]. rewrite Nat.sub_diag. split.
    + exists c. split; [reflexivity|exact Heq].
    + intros j b Hj. lia.
  - destruct (IH _ _ H) as (Hle & (b & Hb & Hs) & Hfirst).
    split; [lia|]. split.
    + exists b. split; [|exact Hs].
      replace (i - k)%nat with (S (i - S k)) by lia. exact Hb.
    + intros j b' Hj Hb'. destruct j as [|j]; simpl in Hb'.
      * injection Hb' as <-. exact Hne.
      * eapply (Hfirst j); [lia|exact Hb'].
Qed.

Lemma findSource_None s cs : forall k,
  Composite.findSource s k cs = None ->
  ~ In s (map (fun b => Batch.source (Batch.baseTexture b)) cs).
Proof.
  induction cs as [|c cs IH]; intros k H; simpl in *; [tauto|].
  destruct (Nat.eqb_spec (Batch.source (Batch.baseTexture c)) s) as [Heq|Hne];
    [discriminate|].
  intros [Hc|Hin]; [contradiction|]. exact (IH _ H Hin).
Qed.



(** X13: the first shadow tile on a layer makes the reserved shadow buffer,
    at the end of the layer's buffers; every later shadow tile goes to that
    same buffer and adds no buffer. *)
Theorem shadow_buffer_made_once (c : Composite.CompositeTilemap) (x y : Q)
  (o : Batch.TileOptions) (Hok : shadowOk c) :
  exists c' b,
    Composite.tile c (Composite.RefNumber (-1)) x y o = Some c'
    /\ Composite.children c' !! Z.to_nat (Composite.shadowId c') = Some b
    /\ last (Batch.pointsBuf b) = Some (Batch.pointOf (Batch.baseTexture b) x y o)
    /\ (Composite.shadowId c = -1 ->
        Composite.shadowId c' = Z.of_nat (length (Composite.children c))
        /\ length (Composite.children c') = S (length (Composite.children c))
        /\ Batch.baseTexture b = Composite.shadowTexture
        /\ Batch.pointsBuf b = [Batch.pointOf Composite.shadowTexture x y o])
    /\ (Composite.shadowId c <> -1 ->
        Composite.shadowId c' = Composite.shadowId c
        /\ length (Composite.children c') = length (Composite.children c)).
Proof.
  unfold Composite.tile. cbn [Z.eqb Pos.eqb].
  destruct (Z.eqb_spec (Composite.shadowId c) (-1)) as [Hs|Hs].
  - eexists. eexists. split; [reflexivity|]. cbn.
    rewrite length_app. cbn [length].
    replace (Z.to_nat (Z.of_nat (length (Composite.children c) + 1) - 1))
      with (length (Composite.children c)) by lia.
    split.
    { rewrite list_lookup_insert_eq by (rewrite length_app; cbn; lia). reflexivity. }
    split; [reflexivity|]. split; [|intros Hc; contradiction].
    intros _. split; [lia|]. rewrite length_insert, length_app. cbn.
    split; [lia|]. split; reflexivity.
  - destruct Hok as [Hm|Hr]; [contradiction|].
    destruct (proj2 (index_is_Some (Composite.children c) (Composite.shadowId c)) Hr)
      as [b Hb].
    rewrite Hb. cbn [mbind option_bind].
    eexists. eexists. split; [reflexivity|]. cbn.
    split.
    { rewrite list_lookup_insert_eq by lia. reflexivity. }
    split.
    { rewrite tile_appends, last_snoc. reflexivity. }
    split; [intros Hc; contradiction|].
    intros _. split; [reflexivity|apply length_insert].
Qed.

Lemma shadow_buffer_made_once_witness :
  exists c' b,
    Composite.tile Composite.new (Composite.RefNumber (-1)) 0 0 Batch.noOptions = Some c'
    /\ Composite.children c' !! Z.to_nat (Composite.shadowId c') = Some b.
Proof.
  destruct (shadow_buffer_made_once Composite.new 0 0 Batch.noOptions (or_introl eq_refl))
    as (c' & b & Hc & Hb & _).
  exists c', b. split; [exact Hc|exact Hb].
Defined.

(** X14: a tile given by its texture goes to the first buffer bound to the
    texture's source, where it becomes the last command; only when no
    buffer has that source is a buffer added, at the end.  So the list of
    buffer sources never gets a second entry for a source this way. *)
Theorem texture_tile_routing (c : Composite.CompositeTilemap) (t : Batch.Texture)
  (x y : Q) (o : Batch.TileOptions) :
  exists c' i b,
    Composite.tile c (Composite.RefTexture t) x y o = Some c'
    /\ Composite.children c' !! i = Some b
    /\ Batch.source (Batch.baseTexture b) = Batch.source t
    /\ last (Batch.pointsBuf b) = Some (Batch.pointOf t x y o)
    /\ (forall j b', (j < i)%nat -> Composite.children c' !! j = Some b' ->
          Batch.source (Batch.baseTexture b') <> Batch.source t)
    /\ sources c' = (if in_dec Nat.eq_dec (Batch.source t) (sources c)
                     then sources c else sources c ++ [Batch.source t])
    /\ (NoDup (sources c) -> NoDup (sources c')).
Proof.
  unfold Composite.tile.
  destruct (Composite.findSource _ _ _) as [i|] eqn:Hfind.
  - destruct (findSource_Some _ _ _ _ Hfind) as (_ & (b & Hb & Hs) & Hfirst).
    rewrite Nat.sub_0_r in Hb, Hfirst. rewrite Hb. cbn [mbind option_bind].
    assert (Hlt : (i < length (Composite.children c))%nat)
      by (eapply lookup_lt_Some; exact Hb).
    assert (Hsrc : sources (Composite.withChildren c
                     (<[i := Batch.tile b (Some t) x y o]> (Composite.children c)))
                   = sources c).
    { unfold sources. cbn [Composite.children Composite.withChildren].
      rewrite list_fmap_insert. apply list_insert_id.
      rewrite list_lookup_fmap, Hb. reflexivity. }
    eexists. exists i. eexists. split; [reflexivity|].
    cbn [Composite.children Composite.withChildren].
    split; [apply list_lookup_insert_eq; exact Hlt|].
    split; [exact Hs|].
    split; [rewrite tile_appends, last_snoc; reflexivity|].
    split.
    { intros j b' Hj Hb'. rewrite list_lookup_insert_ne in Hb' by lia.
      eapply Hfirst; eassumption. }
    rewrite Hsrc. split; [|tauto].
    destruct (in_dec Nat.eq_dec (Batch.source t) (sources c)) as [_|Hn]; [reflexivity|].
    destruct Hn. unfold sources. apply in_map_iff. exists b. split; [exact Hs|].
    apply list_elem_of_In. eapply list_elem_of_lookup_2. exact Hb.
  - pose proof (findSource_None _ _ _ Hfind) as Hnot. fold (sources c) in Hnot.
    eexists. exists (length (Composite.children c)). eexists.
    split; [reflexivity|]. cbn [Composite.children Composite.withChildren].
    split; [apply list_lookup_middle; reflexivity|].
    split; [reflexivity|]. split; [reflexivity|]. split.
    { intros j b' Hj Hb'. rewrite lookup_app_l in Hb' by exact Hj.
      intros Heq. apply Hnot. unfold sources. apply in_map_iff.
      exists b'. split; [exact Heq|].
      apply list_elem_of_In. eapply list_elem_of_lookup_2. exact Hb'. }
    assert (Hsrc : sources (Composite.withChildren c
                     (Composite.children c
                      ++ [Batch.tile (Batch.new t) (Some t) x y o]))
                   = sources c ++ [Batch.source t]).
    { unfold sources. cbn [Composite.children Composite.withChildren].
      rewrite map_app. reflexivity. }
    rewrite Hsrc.
    destruct (in_dec Nat.eq_dec (Batch.source t) (sources c)) as [Hin|_];
      [contradiction|].
    split; [reflexivity|].
    intros Hnd. apply NoDup_app. split; [exact Hnd|]. split.
    + intros s Hs Hs'. apply list_elem_of_In in Hs.
      apply list_elem_of_singleton in Hs'. subst s. contradiction.
    + apply NoDup_singleton.
Qed.

Lemma texture_tile_routing_witness :
  exists c' i b,
    Composite.tile Composite.new (Composite.RefTexture Composite.shadowTexture) 0 0
                   Batch.noOptions = Some c'
    /\ Composite.children c' !! i = Some b
    /\ Batch.source (Batch.baseTexture b) = Batch.source Composite.shadowTexture.
Proof.
  destruct (texture_tile_routing Composite.new Composite.shadowTexture 0 0 Batch.noOptions)
    as (c' & i & b & Hc & Hb & Hs & _).
  exists c', i, b. repeat split; assumption.
Defined.

Lemma sameSources_false cs : forall ts,
  Composite.sameSources cs ts = false <->
  exists i b t, cs !! i = Some b /\ ts !! i = Some t
                /\ Batch.source (Batch.baseTexture b) <> Batch.source t.
Proof.
  induction cs as [|c cs IH]; intros ts; simpl.
  - split; [discriminate|]. intros (i & b & t & Hb & _). rewrite lookup_nil in Hb.
    discriminate.
  - destruct ts as [|t ts].
    + split; [discriminate|]. intros (i & b & t & _ & Ht & _). rewrite lookup_nil in Ht.
      discriminate.
    + destruct (Nat.eqb_spec (Batch.source (Batch.baseTexture c)) (Batch.source t))
        as [Heq|Hne]; simpl.
      * rewrite IH. split.
        -- intros (i & b & t' & Hb & Ht & Hs). exists (S i), b, t'. repeat split; assumption.
        -- intros (i & b & t' & Hb & Ht & Hs). destruct i as [|i]; simpl in *.
           ++ injection Hb as <-. injection Ht as <-. contradiction.
           ++ exists i, b, t'. repeat split; assumption.
      * split; [|reflexivity]. intros _. exists 0%nat, c, t. repeat split. exact Hne.
Qed.

(** X15: [tileset] fails (the "not implemented" error) exactly when some
    existing buffer is bound to another source than the texture given for
    its index; otherwise it leaves the existing buffers as they are and
    appends one empty buffer for each texture beyond them, so that the
    layer has max(#buffers, #textures) buffers. *)
Theorem tileset_behaviour (c : Composite.CompositeTilemap) (ts : list Batch.Texture) :
  (Composite.tileset c ts = None <->
     exists i b t, Composite.children c !! i = Some b /\ ts !! i = Some t
                   /\ Batch.source (Batch.baseTexture b) <> Batch.source t)
  /\ (forall c', Composite.tileset c ts = Some c' ->
        Composite.children c'
          = Composite.children c
            ++ map Batch.new (drop (length (Composite.children c)) ts)
        /\ length (Composite.children c')
           = Nat.max (length (Composite.children c)) (length ts)
        /\ Composite.shadowId c' = Composite.shadowId c).
Proof.
  unfold Composite.tileset. split.
  - rewrite <- sameSources_false.
    destruct (Composite.sameSources _ _); split; intros H; congruence.
  - intros c' H. cbv zeta in H. destruct (Composite.sameSources _ _); [|discriminate].
    apply (inj Some) in H. subst c'. cbn. split; [reflexivity|].
    rewrite length_app, length_map, length_drop. split; [lia|reflexivity].
Qed.

(** X16: [clear] empties every buffer of a composite layer and keeps the
    buffers themselves: their number, their textures and the shadow id stay
    the same; clearing twice is clearing once, and a tile sent to a numeric
    slot (other than the shadow slot) is forgotten by the next clear. *)
Theorem composite_clear_keeps_buffers (c : Composite.CompositeTilemap) :
  Forall (fun b => Batch.pointsBuf b = [] /\ Batch.hasAnimatedTile b = false
                   /\ Batch._didTilemapUpdate b = true)
         (Composite.children (Composite.clear c))
  /\ map Batch.baseTexture (Composite.children (Composite.clear c))
     = map Batch.baseTexture (Composite.children c)
  /\ Composite.shadowId (Composite.clear c) = Composite.shadowId c
  /\ Composite.clear (Composite.clear c) = Composite.clear c
  /\ (forall n x y o c', n <> -1 ->
        Composite.tile c (Composite.RefNumber n) x y o = Some c' ->
        Composite.clear c' = Composite.clear c).
Proof.
  unfold Composite.clear. cbn.
  split; [apply Forall_map, Forall_forall; intros b _; repeat split|].
  split; [rewrite map_map; reflexivity|].
  split; [reflexivity|]. split.
  { unfold Composite.withChildren. cbn. rewrite map_map. reflexivity. }
  intros n x y o c' Hn H. unfold Composite.tile in H.
  apply Z.eqb_neq in Hn. rewrite Hn in H.
  assert (Hins : forall i b, Composite.children c !! i = Some b ->
            map Batch.clear (<[i := Batch.tile b None x y o]> (Composite.children c))
            = map Batch.clear (Composite.children c)).
  { intros i b Hb. rewrite list_fmap_insert. apply list_insert_id.
    rewrite list_lookup_fmap, Hb. reflexivity. }
  destruct (Js.index (Composite.children c) n) as [b|] eqn:Hb.
  - injection H as <-. unfold Composite.withChildren. cbn.
    rewrite (Hins (Z.to_nat n) b); [reflexivity|].
    unfold Js.index in Hb. destruct (0 <=? n); [exact Hb|discriminate].
  - change (Z.to_nat 0) with 0%nat in H.
    destruct (Composite.children c !! 0%nat) as [b|] eqn:Hb0.
    + injection H as <-. unfold Composite.withChildren. cbn.
      rewrite (Hins 0%nat b); [reflexivity|exact Hb0].
    + injection H as <-. reflexivity.
Qed.

(** ** The triangles of a mesh *)

Lemma store_prefix_at {A} (a : Mesh.View) m (x : A) bufs (P : nat -> A -> Prop) :
  Mesh.inRange bufs a -> (m < Mesh.len a)%nat -> P m x ->
  (forall j, (j < m)%nat -> exists v, Mesh.load a j bufs = Some v /\ P j v) ->
  forall j, (j < m + 1)%nat ->
    exists v, Mesh.load a j (Mesh.store a m x bufs) = Some v /\ P j v.
Proof.
  intros Hr Hm Hx Hprev j Hj. destruct (decide (m = j)) as [<-|Hne].
  - exists x. split; [apply load_store_eq; assumption|exact Hx].
  - rewrite load_store_ne by exact Hne. apply Hprev. lia.
Qed.

Lemma triIndex_at (i k : nat) :
  (k < 6)%nat ->
  triIndex (i * 6 + k) = Z.of_nat (i * 4) + nth k [0; 1; 2; 0; 2; 3] 0.
Proof.
  intros Hk. unfold triIndex.
  replace ((i * 6 + k) / 6)%nat with i
    by (apply Nat.div_unique with (r := k); lia).
  replace ((i * 6 + k) mod 6)%nat with k
    by (apply Nat.mod_unique with (q := i); lia).
  reflexivity.
Qed.

Lemma writeIndices_exact (n : nat) a i bufs :
  4 * Z.of_nat n <= 2 ^ 32 ->
  Mesh.len a = (n * 6)%nat -> (i < n)%nat -> Mesh.inRange bufs a ->
  (forall j, (j < i * 6)%nat ->
     exists v, Mesh.load a j bufs = Some v /\ v = triIndex j) ->
  forall j, (j < S i * 6)%nat ->
    exists v, Mesh.load a j (Mesh.writeIndices a i bufs) = Some v /\ v = triIndex j.
Proof.
  intros Hsmall Hlen Hi Hr Hprev. unfold Mesh.writeIndices.
  set (P := fun (j : nat) (v : Z) => v = triIndex j).
  assert (HP : forall (k : nat) (z : Z), (k < 6)%nat ->
            z = nth k [0; 1; 2; 0; 2; 3] 0 ->
            P (i * 6 + k)%nat (Js.toUint32 (Z.of_nat (i * 4) + z))).
  { intros k z Hk ->. unfold P. rewrite triIndex_at by exact Hk.
    unfold Js.toUint32. apply Z.mod_small.
    assert (0 <= nth k [0; 1; 2; 0; 2; 3] 0 <= 3).
    { destruct k as [|[|[|[|[|[|k]]]]]]; simpl; lia. }
    lia. }
  assert (HP0 : forall k : nat, (k < 6)%nat -> nth k [0; 1; 2; 0; 2; 3] 0 = 0 ->
            P (i * 6 + k)%nat (Js.toUint32 (Z.of_nat (i * 4)))).
  { intros k Hk Hz. replace (Z.of_nat (i * 4)) with (Z.of_nat (i * 4) + 0) by lia.
    apply HP; [exact Hk|symmetry; exact Hz]. }
  set (b0 := bufs).
  set (b1 := Mesh.store a (i * 6 + 0) (Js.toUint32 (Z.of_nat (i * 4))) b0).
  set (b2 := Mesh.store a (i * 6 + 1) (Js.toUint32 (Z.of_nat (i * 4) + 1)) b1).
  set (b3 := Mesh.store a (i * 6 + 2) (Js.toUint32 (Z.of_nat (i * 4) + 2)) b2).
  set (b4 := Mesh.store a (i * 6 + 3) (Js.toUint32 (Z.of_nat (i * 4))) b3).
  set (b5 := Mesh.store a (i * 6 + 4) (Js.toUint32 (Z.of_nat (i * 4) + 2)) b4).
  assert (R1 : Mesh.inRange b1 a) by (eapply inRange_sameShape; [exact Hr|apply store_sameShape]).
  assert (R2 : Mesh.inRange b2 a) by (eapply inRange_sameShape; [exact R1|apply store_sameShape]).
  assert (R3 : Mesh.inRange b3 a) by (eapply inRange_sameShape; [exact R2|apply store_sameShape]).
  assert (R4 : Mesh.inRange b4 a) by (eapply inRange_sameShape; [exact R3|apply store_sameShape]).
  assert (R5 : Mesh.inRange b5 a) by (eapply inRange_sameShape; [exact R4|apply store_sameShape]).
  assert (H1 : forall j, (j < i * 6 + 1)%nat -> exists v, Mesh.load a j b1 = Some v /\ P j v).
  { intros j Hj.
    apply (store_prefix_at a (i * 6 + 0) _ b0 P Hr ltac:(lia)
             (HP0 0%nat ltac:(lia) eq_refl)); [|lia].
    intros j' Hj'. apply Hprev. lia. }
  assert (H2 : forall j, (j < i * 6 + 2)%nat -> exists v, Mesh.load a j b2 = Some v /\ P j v).
  { intros j Hj.
    apply (store_prefix_at a (i * 6 + 1) _ b1 P R1 ltac:(lia)
             (HP 1%nat 1 ltac:(lia) eq_refl)); [|lia].
    intros j' Hj'. apply H1. lia. }
  assert (H3 : forall j, (j < i * 6 + 3)%nat -> exists v, Mesh.load a j b3 = Some v /\ P j v).
  { intros j Hj.
    apply (store_prefix_at a (i * 6 + 2) _ b2 P R2 ltac:(lia)
             (HP 2%nat 2 ltac:(lia) eq_refl)); [|lia].
    intros j' Hj'. apply H2. lia. }
  assert (H4 : forall j, (j < i * 6 + 4)%nat -> exists v, Mesh.load a j b4 = Some v /\ P j v).
  { intros j Hj.
    apply (store_prefix_at a (i * 6 + 3) _ b3 P R3 ltac:(lia)
             (HP0 3%nat ltac:(lia) eq_refl)); [|lia].
    intros j' Hj'. apply H3. lia. }
  assert (H5 : forall j, (j < i * 6 + 5)%nat -> exists v, Mesh.load a j b5 = Some v /\ P j v).
  { intros j Hj.
    apply (store_prefix_at a (i * 6 + 4) _ b4 P R4 ltac:(lia)
             (HP 4%nat 2 ltac:(lia) eq_refl)); [|lia].
    intros j' Hj'. apply H4. lia. }
  intros j Hj.
  apply (store_prefix_at a (i * 6 + 5) _ b5 P R5 ltac:(lia)
           (HP 5%nat 3 ltac:(lia) eq_refl)); [|lia].
  intros j' Hj'. apply H5. lia.
Qed.

Lemma buildLoop_exact fround (n : nat) m g pts : forall i mem,
  4 * Z.of_nat n <= 2 ^ 32 ->
  Mesh.len (Mesh.indices g) = (n * 6)%nat -> (i + length pts = n)%nat ->
  Mesh.inRange (Mesh.u32 mem) (Mesh.indices g) ->
  (forall j, (j < i * 6)%nat ->
     exists v, Mesh.load (Mesh.indices g) j (Mesh.u32 mem) = Some v /\ v = triIndex j) ->
  forall j, (j < n * 6)%nat ->
    exists v, Mesh.load (Mesh.indices g) j (Mesh.u32 (Mesh.buildLoop fround m g i pts mem))
              = Some v /\ v = triIndex j.
Proof.
  induction pts as [|p pts IH]; intros i mem Hsmall Hlen Hn Hr Hprev; simpl in *.
  - intros j Hj. apply Hprev. lia.
  - apply IH; try assumption.
    + lia.
    + eapply inRange_sameShape; [exact Hr|apply writeIndices_sameShape].
    + apply (writeIndices_exact n); try assumption. lia.
Qed.

Lemma triIndex_quads (n : nat) :
  map triIndex (seq 0 (n * 6)) = flat_map quadIndices (seq 0 n).
Proof.
  induction n as [|n IH]; [reflexivity|].
  replace (S n * 6)%nat with (n * 6 + 6)%nat by lia.
  rewrite seq_app, map_app, IH. rewrite (seq_S n 0), flat_map_app. f_equal.
  cbn [flat_map seq map Nat.add]. rewrite app_nil_r. unfold quadIndices.
  replace (triIndex (n * 6)) with (triIndex (n * 6 + 0)) by (f_equal; lia).
  replace (S (n * 6)) with (n * 6 + 1)%nat by lia.
  replace (S (n * 6 + 1)) with (n * 6 + 2)%nat by lia.
  replace (S (n * 6 + 2)) with (n * 6 + 3)%nat by lia.
  replace (S (n * 6 + 3)) with (n * 6 + 4)%nat by lia.
  replace (S (n * 6 + 4)) with (n * 6 + 5)%nat by lia.
  rewrite !triIndex_at by lia. cbn [nth]. repeat f_equal; lia.
Qed.

(** X17: the index array of a built mesh lists, quad after quad, the two
    triangles 0-1-2 and 0-2-3 of the quad's four vertices: for quad i the
    six values 4i, 4i+1, 4i+2, 4i, 4i+2, 4i+3 (as long as they fit 32
    bits). *)
Theorem index_array_triangles (fround : Q -> Q) (m : Batch.Tilemap)
  (geometry : option Mesh.MeshGeometry) (mem : Mesh.Memory)
  (Hsmall : 4 * Z.of_nat (length (Batch.pointsBuf m)) <= 2 ^ 32)
  (Hpipe : forall g0, geometry = Some g0 -> Mesh.PipeGeometry fround mem g0) :
  let r := Mesh._computeGeometriesBatched fround m geometry mem in
  Mesh.contents (Mesh.indices (fst r)) (Mesh.u32 (snd r))
  = flat_map quadIndices (seq 0 (length (Batch.pointsBuf m))).
Proof.
  intros r. set (n := length (Batch.pointsBuf m)) in *.
  assert (Hg : forall g0, geometry = Some g0 -> Mesh.geomOk mem g0)
    by (intros g0 H0; eapply pipe_geomOk; eauto).
  assert (Hload : forall j, (j < n * 6)%nat ->
            exists v, Mesh.load (Mesh.indices (fst r)) j (Mesh.u32 (snd r)) = Some v
                      /\ v = triIndex j).
  { subst r. unfold Mesh._computeGeometriesBatched. fold n.
    destruct (chooseGeometry_ok n geometry mem Hg) as (Hok & Hlen & _).
    destruct (Mesh.chooseGeometry n geometry mem) as [g mem1]. simpl in *.
    destruct Hok as (k & H1 & H2 & H3 & R1 & R2 & R3).
    assert (k = n) by lia. subst k.
    apply buildLoop_exact; try assumption; [reflexivity|].
    intros j Hj. lia. }
  destruct (build_ok fround m geometry mem Hg) as ((k & H1 & H2 & H3 & R1 & R2 & R3)
                                                   & Hlen & _).
  fold r n in H1, H2, H3, R1, R2, R3, Hlen.
  assert (k = n) by lia. subst k.
  rewrite <- triIndex_quads. apply list_eq. intros j.
  rewrite contents_lookup, list_lookup_fmap.
  destruct (Nat.lt_ge_cases j (n * 6)) as [Hlt|Hge].
  - destruct (Hload j Hlt) as (v & Hv & ->). rewrite Hv.
    rewrite lookup_seq_lt by exact Hlt. reflexivity.
  - rewrite lookup_seq_ge by exact Hge. simpl.
    unfold Mesh.load. rewrite H3.
    destruct (Nat.ltb_spec j (n * 6)); [lia|reflexivity].
Qed.

Lemma index_array_triangles_witness :
  let m1 := Batch.tile (Batch.new Composite.shadowTexture) None 0 0 Batch.noOptions in
  let m2 := Batch.tile m1 None 0 0 Batch.noOptions in
  let r := Mesh._computeGeometriesBatched (fun q => q) m2 None (Mesh.mkMemory [] []) in
  Mesh.contents (Mesh.indices (fst r)) (Mesh.u32 (snd r))
  = flat_map quadIndices (seq 0 2).
Proof.
  intros m1 m2 r.
  refine (index_array_triangles (fun q => q) m2 None (Mesh.mkMemory [] []) _ _).
  - simpl. lia.
  - intros g0 [=].
Defined.

(** ** Animation cells *)

(** X18: for a command with an animation stride, a positive divisor and a
    positive cell count, and a non-negative clock, the animation offset is
    the stride times a cell number below the count, on each axis: it never
    leaves the animation strip.  With a stride of 0 the offset is 0. *)
Theorem anim_offset_in_strip (tileAnim : Q * Q) (p : Batch.PointStruct)
  (Hx : (0 <= fst tileAnim)%Q) (Hy : (0 <= snd tileAnim)%Q)
  (Hdiv : (0 < Batch.pt_animDivisor p)%Q)
  (Hcx : 0 < Batch.pt_animCountX p) (Hcy : 0 < Batch.pt_animCountY p) :
  (exists k, 0 <= k < Batch.pt_animCountX p
             /\ fst (Mesh.animOffset tileAnim p)
                = if Batch.pt_animX p =? 0 then 0%Q else inject_Z (Batch.pt_animX p * k))
  /\ (exists k, 0 <= k < Batch.pt_animCountY p
             /\ snd (Mesh.animOffset tileAnim p)
                = if Batch.pt_animY p =? 0 then 0%Q else inject_Z (Batch.pt_animY p * k)).
Proof.
  assert (Hframe : forall a, (0 <= a)%Q ->
            0 <= Qfloor (a / Batch.pt_animDivisor p + (1 # 2))).
  { intros a Ha. apply Qfloor_resp_le with (x := 0%Q).
    assert (0 <= a / Batch.pt_animDivisor p)%Q
      by (apply Qle_shift_div_l; [exact Hdiv|lra]).
    lra. }
  unfold Mesh.animOffset. cbn [fst snd]. unfold Js.rem. split.
  - exists (Qfloor (fst tileAnim / Batch.pt_animDivisor p + (1 # 2))
            mod Batch.pt_animCountX p).
    split; [apply Z.mod_pos_bound; exact Hcx|].
    rewrite Z.rem_mod_nonneg by (first [apply Hframe; assumption|lia]). reflexivity.
  - exists (Qfloor (snd tileAnim / Batch.pt_animDivisor p + (1 # 2))
            mod Batch.pt_animCountY p).
    split; [apply Z.mod_pos_bound; exact Hcy|].
    rewrite Z.rem_mod_nonneg by (first [apply Hframe; assumption|lia]). reflexivity.
Qed.

Lemma anim_offset_in_strip_witness :
  exists k, 0 <= k < 2
    /\ fst (Mesh.animOffset (51 # 100, 0)%Q
              (Batch.mkPoint 0 0 0 0 48 48 0 8 0 2 1024 1 1))
       = inject_Z (8 * k).
Proof.
  destruct (anim_offset_in_strip (51 # 100, 0)%Q
              (Batch.mkPoint 0 0 0 0 48 48 0 8 0 2 1024 1 1)) as [(k & Hk & Hoff) _];
    try reflexivity; try discriminate.
  exists k. split; [exact Hk|exact Hoff].
Defined.




(** ** Repaints that are not forced, and where the layers stand *)







(** ** Any counter *)



(** ** Drawing as a series of calls *)

(** [_drawTile] makes the calls of [tileCalls], in order, on its layer. *)
Lemma drawTile_calls st layer tileId dx dy h :
  Rmmv._drawTile st layer tileId dx dy h
  = calls ← Rmmv.tileCalls st tileId dx dy; Rmmv.forEach (Rmmv.callTile layer) calls h.
Proof.
  unfold Rmmv._drawTile, Rmmv.tileCalls, Rmmv._drawAutotile, Rmmv._drawNormalTile.
  destruct (Rmmv.isVisibleTile tileId); [|reflexivity].
  destruct (Rmmv.isAutotile tileId); [reflexivity|].
  cbn [mbind option_bind Rmmv.forEach].
  destruct (Rmmv.callTile _ _ h); reflexivity.
Qed.

(** ** Painting an empty map *)





